(** * Alpha Capital portfolio risk engine: a shallow embedding of
    [portfolio_analysis.py] and the properties of its risk metrics,
    optimizer and Monte Carlo simulator.

    Numbers.  The program computes in IEEE double precision through numpy and
    pandas.  Here a finite double is idealised as the exact real it stands
    for (no rounding, no overflow), and the three special values the program
    can produce from finite data (a division by zero, the mean of an empty
    sample, a square root of a negative number) are kept as constructors of
    [float64].  Input data (returns, weights) is finite by the data contract
    and is held in lists of reals.

    Library routines.  numpy, pandas and scipy are not part of the repository;
    each routine the program calls is modelled by its documented behaviour
    ([np_percentile], [np_cov], [np_clip], ...), and the two routines with no
    closed form (scipy's SLSQP solver and numpy's matrix inverse) are taken
    as parameters of [optimize_portfolio].  So is numpy's Cholesky
    factorization, a parameter of [generate_price_data].

    Scope.  The seven functions of the program are modelled; the main block
    (which chains three of them and writes files) is not, and [print_report]
    is modelled by the values it computes and returns, not by the text it
    writes to the console. *)

From Stdlib Require Import String.
From Stdlib Require Import Reals Lra Lia ZArith Bool List Permutation Sorted.
Import ListNotations.
Open Scope R_scope.

(* ================================================================= *)
(** ** Doubles with special values *)

Inductive float64 : Type :=
| Fin (r : R)
| PInf
| NInf
| NaN.

(** [inf_of_sign r] is [r * inf]: the infinity carrying the sign of [r],
    and NaN for [r = 0]. *)
Definition inf_of_sign (r : R) : float64 :=
  match total_order_T r 0 with
  | inleft (left _) => NInf
  | inleft (right _) => NaN
  | inright _ => PInf
  end.

Definition fneg (a : float64) : float64 :=
  match a with
  | Fin r => Fin (- r)
  | PInf => NInf
  | NInf => PInf
  | NaN => NaN
  end.

Definition fadd (a b : float64) : float64 :=
  match a, b with
  | NaN, _ | _, NaN => NaN
  | Fin x, Fin y => Fin (x + y)
  | PInf, NInf | NInf, PInf => NaN
  | PInf, _ | _, PInf => PInf
  | NInf, _ | _, NInf => NInf
  end.

Definition fsub (a b : float64) : float64 := fadd a (fneg b).

Definition fmul (a b : float64) : float64 :=
  match a, b with
  | NaN, _ | _, NaN => NaN
  | Fin x, Fin y => Fin (x * y)
  | Fin x, PInf | PInf, Fin x => inf_of_sign x
  | Fin x, NInf | NInf, Fin x => fneg (inf_of_sign x)
  | PInf, PInf | NInf, NInf => PInf
  | PInf, NInf | NInf, PInf => NInf
  end.

(** Division.  Every zero divisor the program can produce is a positive zero
    (a standard deviation, a variance, a count), so [x / 0] takes the sign
    of [x]. *)
Definition fdiv (a b : float64) : float64 :=
  match a, b with
  | NaN, _ | _, NaN => NaN
  | Fin x, Fin y => if Req_dec_T y 0 then inf_of_sign x else Fin (x / y)
  | Fin _, PInf | Fin _, NInf => Fin 0
  | PInf, Fin y => if Rlt_dec y 0 then NInf else PInf
  | NInf, Fin y => if Rlt_dec y 0 then PInf else NInf
  | PInf, PInf | PInf, NInf | NInf, PInf | NInf, NInf => NaN
  end.

Definition fsqrt (a : float64) : float64 :=
  match a with
  | Fin r => if Rlt_dec r 0 then NaN else Fin (sqrt r)
  | PInf => PInf
  | NInf | NaN => NaN
  end.

Definition fexp (a : float64) : float64 :=
  match a with
  | Fin r => Fin (exp r)
  | PInf => PInf
  | NInf => Fin 0
  | NaN => NaN
  end.

(** [a <= b] on doubles; every comparison with NaN is false. *)
Definition fle (a b : float64) : bool :=
  match a, b with
  | NaN, _ | _, NaN => false
  | Fin x, Fin y => if Rle_dec x y then true else false
  | NInf, _ | _, PInf => true
  | _, _ => false
  end.

Definition flt (a b : float64) : bool :=
  match a, b with
  | NaN, _ | _, NaN => false
  | Fin x, Fin y => if Rlt_dec x y then true else false
  | PInf, _ | _, NInf => false
  | _, _ => true
  end.


Definition fsum (l : list float64) : float64 := fold_left fadd l (Fin 0).

Definition sum (l : list R) : R := fold_left Rplus l 0.

(* ================================================================= *)
(** ** Exceptions *)

Inductive exn : Type :=
| ValueError
| IndexError
| ImportError
| LinAlgError.

Inductive result (A : Type) : Type :=
| Ok (a : A)
| Raise (e : exn).

Arguments Ok {A} a.
Arguments Raise {A} e.

Definition bind {A B : Type} (m : result A) (k : A -> result B) : result B :=
  match m with
  | Ok a => k a
  | Raise e => Raise e
  end.

Notation "x <- m ;; k" := (bind m (fun x => k))
  (at level 61, m at next level, right associativity).

(** [from ... import ...]: the module when it is installed, [ImportError]
    otherwise. *)
Definition import {A : Type} (module : option A) : result A :=
  match module with
  | Some m => Ok m
  | None => Raise ImportError
  end.

(* ================================================================= *)
(** ** Fund configuration (module-level constants) *)

Definition AUM : R := 500000000.
Definition RISK_FREE : R := 525 / 10000.
Definition CONF_LEVEL : R := 99 / 100.
Definition TRADE_DAYS : R := 252.

Definition TICKERS : list string :=
  ["AAPL"; "MSFT"; "GOOGL"; "AMZN"; "NVDA";
   "JPM"; "GS"; "BAC"; "XOM"; "JNJ"]%string.

(* ================================================================= *)
(** ** Frames and series *)

(** A [DataFrame] of returns: [ncols] asset columns and one row per period.
    Every row of a frame has [ncols] entries ([rectangular]). *)
Record DataFrame : Type := mkDF {
  ncols : nat;
  rows : list (list R)
}.

Definition rectangular (df : DataFrame) : Prop :=
  Forall (fun row => length row = ncols df) (rows df).

Definition nrows (df : DataFrame) : nat := length (rows df).

Definition column (df : DataFrame) (j : nat) : list R :=
  map (fun row => nth j row 0) (rows df).

Definition columns (df : DataFrame) : list (list R) :=
  map (column df) (seq 0 (ncols df)).

Definition dot (u v : list R) : R :=
  sum (map (fun p => fst p * snd p) (combine u v)).

(** [returns_df @ weights]: pandas checks the shapes, then takes the dot
    product of every row with the weights. *)
Definition df_matmul (df : DataFrame) (w : list R) : result (list R) :=
  if Nat.eqb (ncols df) (length w)
  then Ok (map (fun row => dot row w) (rows df))
  else Raise ValueError.

(** [Series.mean()]: NaN on an empty series. *)
Definition mean (xs : list R) : float64 :=
  fdiv (Fin (sum xs)) (Fin (INR (length xs))).

(** [Series.var()] with the default [ddof=1]: pandas returns NaN when the
    count does not exceed [ddof], else the two-pass estimate. *)
Definition var (xs : list R) : float64 :=
  let count := length xs in
  if Nat.leb count 1 then NaN
  else
    let avg := sum xs / INR count in
    let sqr := sum (map (fun x => (avg - x) * (avg - x)) xs) in
    Fin (sqr / (INR count - 1)).

(** [Series.std()] *)
Definition std (xs : list R) : float64 := fsqrt (var xs).

(* ================================================================= *)
(** ** Risk metrics *)

Definition portfolio_metrics (weights : list R) (returns_df : DataFrame)
  : result (float64 * float64 * float64) :=
  port_returns <- df_matmul returns_df weights ;;
  let ann_return := fmul (mean port_returns) (Fin TRADE_DAYS) in
  let ann_vol := fmul (std port_returns) (fsqrt (Fin TRADE_DAYS)) in
  let sharpe := fdiv (fsub ann_return (Fin RISK_FREE)) ann_vol in
  Ok (ann_return, ann_vol, sharpe).

(** [np.sort]: the order statistics of a sample (insertion into a sorted
    list; numpy's partition yields the same order statistics). *)
Fixpoint insert (v : R) (l : list R) : list R :=
  match l with
  | [] => [v]
  | h :: t => if Rle_dec v h then v :: h :: t else h :: insert v t
  end.

Definition np_sort (l : list R) : list R := fold_right insert [] l.

(** [np.percentile(a, q)] with numpy's default method (linear interpolation
    between the two order statistics around the virtual index
    [(n - 1) * q / 100]).  numpy rejects [q] outside [0, 100] with a
    ValueError before it looks at the data; an empty sample is an IndexError
    (recent numpy versions; no property below depends on that case). *)
Definition np_percentile (a : list R) (q : R) : result R :=
  let quantile := q / 100 in
  if Rle_dec 0 quantile then
    if Rle_dec quantile 1 then
      match a with
      | [] => Raise IndexError
      | _ :: _ =>
          let n := length a in
          let arr := np_sort a in
          let virtual_index := (INR n - 1) * quantile in
          let previous_index := Z.to_nat (Zfloor virtual_index) in
          let next_index := Nat.min (previous_index + 1) (n - 1) in
          let gamma := virtual_index - INR previous_index in
          let lo := nth previous_index arr 0 in
          let hi := nth next_index arr 0 in
          Ok (lo + (hi - lo) * gamma)
      end
    else Raise ValueError
  else Raise ValueError.

(** [port_dollar[port_dollar <= threshold]] *)
Definition at_or_below (threshold : R) (xs : list R) : list R :=
  filter (fun v => fle (Fin v) (Fin threshold)) xs.

(** [calculate_var]: historical VaR, parametric VaR and CVaR.
    [scipy_stats] is [scipy.stats.norm.ppf] when scipy is installed. *)
Definition calculate_var (scipy_stats : option (R -> float64))
    (weights : list R) (returns_df : DataFrame) (confidence : R)
  : result (float64 * float64 * float64) :=
  port_returns <- df_matmul returns_df weights ;;
  let port_dollar := map (fun r => r * AUM) port_returns in
  p <- np_percentile port_dollar ((1 - confidence) * 100) ;;
  let var_hist := Fin (- p) in
  norm_ppf <- import scipy_stats ;;
  let mu := mean port_dollar in
  let sig := std port_dollar in
  let var_param := fneg (fadd mu (fmul (norm_ppf (1 - confidence)) sig)) in
  threshold <- np_percentile port_dollar ((1 - confidence) * 100) ;;
  let cvar := fneg (mean (at_or_below threshold port_dollar)) in
  Ok (var_hist, var_param, cvar).

(* ================================================================= *)
(** ** The global random generator *)

(** numpy's global [RandomState] is modelled by the sequence of standard
    normal variates it is going to yield and a cursor into it. *)
Record RandomState : Type := mkRS {
  variates : nat -> R;
  cursor : nat
}.

Definition gauss (st : RandomState) : R * RandomState :=
  (variates st (cursor st), mkRS (variates st) (S (cursor st))).

Fixpoint gauss_n (n : nat) (st : RandomState) : list R * RandomState :=
  match n with
  | O => ([], st)
  | S k =>
      let '(z, st1) := gauss st in
      let '(zs, st2) := gauss_n k st1 in
      (z :: zs, st2)
  end.

(** [np.random.normal(loc, scale, size)]: [loc + scale * z] for [size]
    successive standard normal variates [z]; a negative scale or size is a
    ValueError. *)
Definition np_random_normal (loc scale : float64) (size : Z)
    (st : RandomState) : result (list float64) * RandomState :=
  if Z.ltb size 0 then (Raise ValueError, st)
  else if flt scale (Fin 0) then (Raise ValueError, st)
  else
    let '(zs, st') := gauss_n (Z.to_nat size) st in
    (Ok (map (fun z => fadd loc (fmul scale (Fin z))) zs), st').

(* ================================================================= *)
(** ** Vectors and matrices of doubles *)

Definition matrix : Type := list (list float64).

Fixpoint map2 {A B C : Type} (f : A -> B -> C) (u : list A) (v : list B)
  : list C :=
  match u, v with
  | a :: u', b :: v' => f a b :: map2 f u' v'
  | _, _ => []
  end.

Definition fdot (u v : list float64) : float64 := fsum (map2 fmul u v).

Definition fmean (xs : list float64) : float64 :=
  fdiv (fsum xs) (Fin (INR (length xs))).

(** [M @ v] *)
Definition mat_vec (M : matrix) (v : list float64) : list float64 :=
  map (fun row => fdot row v) M.

(** [v @ M] *)
Definition vec_mat (v : list float64) (M : matrix) : list float64 :=
  map (fun j => fdot v (map (fun row => nth j row NaN) M))
      (seq 0 (length (hd [] M))).

(** [np.cov] of the variables in the rows of [X] (observations in columns):
    deviations from the row means, their cross products, scaled by
    [1 / fact] where [fact] is the number of observations less one, and
    zero when that is not positive. *)
Definition np_cov (X : matrix) : matrix :=
  let fact := INR (length (hd [] X) - 1) in
  let dev := map (fun v => map (fun e => fsub e (fmean v)) v) X in
  map (fun di =>
         map (fun dj => fmul (fdot di dj) (fdiv (Fin 1) (Fin fact))) dev)
      dev.

(** [M[i, j]] *)
Definition entry (M : matrix) (i j : nat) : float64 :=
  nth j (nth i M []) NaN.

(** [calculate_beta]: beta against a simulated benchmark, the cross-section
    mean of the returns scaled by 0.85 plus noise drawn from the global
    generator. *)
Definition calculate_beta (weights : list R) (returns_df : DataFrame)
    (st : RandomState) : result float64 * RandomState :=
  let '(noise, st') :=
    np_random_normal (Fin 0) (Fin (3 / 1000))
                     (Z.of_nat (nrows returns_df)) st in
  (noise <- noise ;;
   let bm_returns :=
     map2 fadd
          (map (fun row => fmul (mean row) (Fin (85 / 100))) (rows returns_df))
          noise in
   port_returns <- df_matmul returns_df weights ;;
   let cov_mat := np_cov [map Fin port_returns; bm_returns] in
   Ok (fdiv (entry cov_mat 0 1) (entry cov_mat 1 1)),
   st').

(* ================================================================= *)
(** ** Markowitz optimization *)

(** What [scipy.optimize.minimize] returns, as far as the program reads it. *)
Record OptimizeResult : Type := mkResult {
  x : list float64;
  success : bool
}.

Record constraint : Type := mkConstraint {
  ctype : string;
  cfun : list float64 -> float64
}.

(** [minimize(fun, x0, method, bounds, constraints, ftol, maxiter)] *)
Definition minimize_t : Type :=
  (list float64 -> float64) -> list float64 -> string ->
  list (R * R) -> list constraint -> R -> nat -> OptimizeResult.

(** [DataFrame.mean()]: the mean of every column. *)
Definition df_mean (df : DataFrame) : list float64 :=
  map mean (columns df).

(** [DataFrame.cov()]: pandas hands the transposed values to [np.cov]. *)
Definition df_cov (df : DataFrame) : matrix :=
  np_cov (map (map Fin) (columns df)).

Definition scale_matrix (M : matrix) (c : R) : matrix :=
  map (map (fun e => fmul e (Fin c))) M.

(** [np.eye(n) * c] *)
Definition scaled_eye (n : nat) (c : R) : matrix :=
  map (fun i =>
         map (fun j => fmul (Fin (if Nat.eqb i j then 1 else 0)) (Fin c))
             (seq 0 n))
      (seq 0 n).

(** [A + B] for a square [A] and an [n]-by-[n] matrix [B], with numpy's
    broadcasting: the shapes must agree, or [A] must be 1-by-1. *)
Definition broadcast_add (A : matrix) (n : nat) (B : matrix)
  : result matrix :=
  let k := length A in
  if Nat.eqb k n then Ok (map2 (map2 fadd) A B)
  else if Nat.eqb k 1 then Ok (map (map (fadd (entry A 0 0))) B)
  else Raise ValueError.

(** [np.clip]: NaN stays NaN. *)
Definition np_clip (lo hi : R) (w : list float64) : list float64 :=
  map (fun e =>
         match e with
         | NaN => NaN
         | _ => if flt e (Fin lo) then Fin lo
                else if flt (Fin hi) e then Fin hi else e
         end) w.

(** The locals of [optimize_portfolio] that both branches or the solver
    call share. *)
Definition n_assets : nat := length TICKERS.

Definition annual_cov (returns_df : DataFrame) : matrix :=
  scale_matrix (df_cov returns_df) TRADE_DAYS.

(** The closure [neg_sharpe(w)] handed to the solver. *)
Definition neg_sharpe (returns_df : DataFrame) (w : list float64) : float64 :=
  let mean_ret := map (fun m => fmul m (Fin TRADE_DAYS))
                      (df_mean returns_df) in
  let cov_mat := annual_cov returns_df in
  let r := fdot w mean_ret in
  let v := fsqrt (fdot (vec_mat w cov_mat) w) in
  fdiv (fneg (fsub r (Fin RISK_FREE))) v.

Definition constraints : list constraint :=
  [mkConstraint "eq" (fun w => fsub (fsum w) (Fin 1))].

Definition bounds : list (R * R) := repeat (2 / 100, 25 / 100) n_assets.

(** [w0 = np.ones(n) / n] *)
Definition w0 : list float64 :=
  map (fun o => fdiv o (Fin (INR n_assets))) (repeat (Fin 1) n_assets).

(** The call [minimize(neg_sharpe, w0, method='SLSQP', bounds=bounds,
    constraints=constraints, options={'ftol': 1e-9, 'maxiter': 1000})]. *)
Definition slsqp (minimize : minimize_t) (returns_df : DataFrame)
  : OptimizeResult :=
  minimize (neg_sharpe returns_df) w0 "SLSQP"%string bounds constraints
           (1 / 1000000000) 1000%nat.

(** The [except ImportError] branch: regularized minimum-variance weights,
    clipped into the position limits and renormalized. *)
Definition min_variance_fallback (np_linalg_inv : matrix -> result matrix)
    (returns_df : DataFrame) : result (list float64) :=
  let n := n_assets in
  let cov_mat := annual_cov returns_df in
  let ones := repeat (Fin 1) n in
  regularized <- broadcast_add cov_mat n (scaled_eye n (1 / 100000000)) ;;
  inv_cov <- np_linalg_inv regularized ;;
  let w := map (fun e => fdiv e (fdot (vec_mat ones inv_cov) ones))
               (mat_vec inv_cov ones) in
  let w := np_clip (2 / 100) (25 / 100) w in
  Ok (map (fun e => fdiv e (fsum w)) w).

(** [optimize_portfolio].  [scipy_optimize] is [scipy.optimize.minimize]
    when scipy is installed; [np_linalg_inv] is [np.linalg.inv], which
    raises [LinAlgError] on a singular matrix. *)
Definition optimize_portfolio (scipy_optimize : option minimize_t)
    (np_linalg_inv : matrix -> result matrix) (returns_df : DataFrame)
  : result (list float64) :=
  match import scipy_optimize with
  | Ok minimize =>
      let result := slsqp minimize returns_df in
      Ok (if success result then x result else w0)
  | Raise ImportError => min_variance_fallback np_linalg_inv returns_df
  | Raise e => Raise e
  end.

(* ================================================================= *)
(** ** Monte Carlo simulation *)

(** [monte_carlo]: [n_sim] simulated terminal values of the portfolio after
    [horizon] periods. *)
Definition monte_carlo (weights : list R) (returns_df : DataFrame)
    (n_sim : Z) (horizon : R) (st : RandomState)
  : result (list float64) * RandomState :=
  match df_matmul returns_df weights with
  | Raise e => (Raise e, st)
  | Ok port_returns =>
      let mu := mean port_returns in
      let sig := std port_returns in
      let '(draws, st') :=
        np_random_normal
          (fmul (fsub mu (fmul (Fin (1 / 2)) (fmul sig sig))) (Fin horizon))
          (fmul sig (fsqrt (Fin horizon)))
          n_sim st in
      (draws <- draws ;;
       Ok (map (fun d => fmul (Fin AUM) (fexp d)) draws),
       st')
  end.

(* ================================================================= *)
(** ** The simulated price history *)

(** numpy's Cholesky factorization has no closed form here: it is a parameter
    of [generate_price_data], as the solver and the matrix inverse are of
    [optimize_portfolio].  The date index of the two frames is not modelled:
    no function of the program reads it. *)

Definition mu_annual : list R :=
  [22 / 100; 20 / 100; 18 / 100; 25 / 100; 38 / 100;
   14 / 100; 16 / 100; 13 / 100; 9 / 100; 10 / 100].

Definition sigma_annual : list R :=
  [28 / 100; 25 / 100; 27 / 100; 30 / 100; 45 / 100;
   22 / 100; 28 / 100; 25 / 100; 30 / 100; 18 / 100].

Definition corr : list (list R) :=
  [[1; 75/100; 70/100; 55/100; 65/100; 30/100; 25/100; 25/100; 15/100; 20/100];
   [75/100; 1; 68/100; 52/100; 60/100; 32/100; 27/100; 27/100; 18/100; 22/100];
   [70/100; 68/100; 1; 58/100; 55/100; 28/100; 23/100; 23/100; 14/100; 18/100];
   [55/100; 52/100; 58/100; 1; 48/100; 25/100; 20/100; 20/100; 22/100; 15/100];
   [65/100; 60/100; 55/100; 48/100; 1; 22/100; 18/100; 18/100; 12/100; 15/100];
   [30/100; 32/100; 28/100; 25/100; 22/100; 1; 72/100; 75/100; 28/100; 25/100];
   [25/100; 27/100; 23/100; 20/100; 18/100; 72/100; 1; 68/100; 25/100; 22/100];
   [25/100; 27/100; 23/100; 20/100; 18/100; 75/100; 68/100; 1; 22/100; 20/100];
   [15/100; 18/100; 14/100; 22/100; 12/100; 28/100; 25/100; 22/100; 1; 15/100];
   [20/100; 22/100; 18/100; 15/100; 15/100; 25/100; 22/100; 20/100; 15/100; 1]].

(** [array.reshape(rows, cols)] of a flat list, row by row. *)
Fixpoint reshape (cols rows : nat) (l : list R) : list (list R) :=
  match rows with
  | O => []
  | S r => firstn cols l :: reshape cols r (skipn cols l)
  end.

(** [np.random.standard_normal((n_rows, n_cols))]: the variates fill the
    array row by row; a negative dimension is a ValueError. *)
Definition np_random_standard_normal (n_rows : Z) (n_cols : nat)
    (st : RandomState) : result (list (list R)) * RandomState :=
  if Z.ltb n_rows 0 then (Raise ValueError, st)
  else
    let '(zs, st') := gauss_n (Z.to_nat n_rows * n_cols) st in
    (Ok (reshape n_cols (Z.to_nat n_rows) zs), st').

(** [Z @ L.T] for a matrix [Z] of [width] columns: numpy checks that [L]
    has [width] columns too. *)
Definition matmul_transpose (width : nat) (Z L : list (list R))
  : result (list (list R)) :=
  if forallb (fun row => Nat.eqb (length row) width) L
  then Ok (map (fun z => map (fun l => dot z l) L) Z)
  else Raise ValueError.

(** [np.cumprod(a, axis=0)]: running products down every column. *)
Fixpoint cumprod_from (acc : list R) (rows : list (list R))
  : list (list R) :=
  match rows with
  | [] => []
  | r :: rest =>
      let acc' := map2 Rmult acc r in
      acc' :: cumprod_from acc' rest
  end.

Definition np_cumprod (rows : list (list R)) : list (list R) :=
  match rows with
  | [] => []
  | r :: rest => r :: cumprod_from r rest
  end.

(** [a * v] for an array [a] of width [k] and a vector [v] of [n] entries,
    with numpy's broadcasting: [v] meets every row of [a]; the widths must
    agree, or [a] must be a single column, which is then repeated. *)
Definition broadcast_rows (k n : nat) (a : list (list R))
  : result (list (list R)) :=
  if Nat.eqb k n then Ok a
  else if Nat.eqb k 1 then Ok (map (fun row => repeat (hd 0 row) n) a)
  else Raise ValueError.

(** [generate_price_data]: correlated simulated returns and the prices
    they compound to.  [np_linalg_cholesky] is [np.linalg.cholesky], which
    returns a lower-triangular factor or raises [LinAlgError]. *)
Definition generate_price_data
    (np_linalg_cholesky : list (list R) -> result (list (list R)))
    (n_days : Z) (st : RandomState)
  : result (DataFrame * DataFrame) * RandomState :=
  let mu_daily := map (fun m => m / TRADE_DAYS) mu_annual in
  let sigma_daily := map (fun s => s / sqrt TRADE_DAYS) sigma_annual in
  match np_linalg_cholesky corr with
  | Raise e => (Raise e, st)
  | Ok L =>
      let '(Z, st') :=
        np_random_standard_normal n_days (length TICKERS) st in
      (Z <- Z ;;
       corr_Z <- matmul_transpose (length TICKERS) Z L ;;
       scaled <- broadcast_rows (length L) (length sigma_annual) corr_Z ;;
       let returns :=
         map (fun row => map2 Rplus mu_daily (map2 Rmult row sigma_daily))
             scaled in
       let prices :=
         map (map (Rmult 100))
             (np_cumprod (map (map (Rplus 1)) returns)) in
       Ok (mkDF (length TICKERS) returns, mkDF (length TICKERS) prices),
       st')
  end.

(* ================================================================= *)
(** ** The executive report *)

(** [print_report] is modelled by what it computes and returns; the text it
    writes to the console is not. *)

Definition SECTOR : list (string * string) :=
  [("AAPL", "Technology"); ("MSFT", "Technology"); ("GOOGL", "Technology");
   ("AMZN", "Consumer Discretionary"); ("NVDA", "Technology");
   ("JPM", "Financials"); ("GS", "Financials"); ("BAC", "Financials");
   ("XOM", "Energy"); ("JNJ", "Healthcare")]%string.

Definition CURRENT_WEIGHTS : list R :=
  [18 / 100; 15 / 100; 12 / 100; 10 / 100; 8 / 100;
   12 / 100; 8 / 100; 7 / 100; 5 / 100; 5 / 100].

(** Exceptions of the report: those of the engine, and the [KeyError] of a
    dictionary lookup. *)
Inductive report_exn : Type :=
| EngineError (e : exn)
| KeyError (key : string).

Inductive outcome (A : Type) : Type :=
| Done (a : A)
| Failed (e : report_exn).

Arguments Done {A} a.
Arguments Failed {A} e.

(** A step of the report: it may read the global generator and it may
    fail. *)
Definition run (A : Type) : Type := RandomState -> outcome A * RandomState.

Definition pure_step {A : Type} (r : result A) : run A :=
  fun st =>
    (match r with Ok a => Done a | Raise e => Failed (EngineError e) end, st).

Definition random_step {A : Type}
    (f : RandomState -> result A * RandomState) : run A :=
  fun st =>
    let '(r, st') := f st in
    (match r with Ok a => Done a | Raise e => Failed (EngineError e) end, st').

Definition lookup_step {A : Type} (o : outcome A) : run A := fun st => (o, st).

Definition and_then {A B : Type} (m : run A) (k : A -> run B) : run B :=
  fun st =>
    match m st with
    | (Done a, st') => k a st'
    | (Failed e, st') => (Failed e, st')
    end.

Notation "x <~ m ;; k" := (and_then m (fun x => k))
  (at level 61, m at next level, right associativity).

(** The arrow of an allocation line: up, down or unchanged. *)
Inductive arrow : Type := Up | Down | Unchanged.

Definition arrow_of (delta : R) : arrow :=
  if Rlt_dec (1 / 100) delta then Up
  else if Rlt_dec delta (- 1 / 100) then Down else Unchanged.

(** [SECTOR[t]] *)
Definition sector_of (t : string) : outcome string :=
  match find (fun p => String.eqb (fst p) t) SECTOR with
  | Some p => Done (snd p)
  | None => Failed (KeyError t)
  end.

(** [a[i]] *)
Definition item (a : list R) (i : nat) : outcome R :=
  match nth_error a i with
  | Some v => Done v
  | None => Failed (EngineError IndexError)
  end.

(** One line of the allocation table, as the values it formats. *)
Record allocation_line : Type := mkLine {
  ticker : string;
  sector : string;
  current_weight : R;
  optimal_weight : R;
  direction : arrow;
  abs_change : R
}.

Definition bind_outcome {A B : Type} (o : outcome A) (k : A -> outcome B)
  : outcome B :=
  match o with
  | Done a => k a
  | Failed e => Failed e
  end.

Definition allocation_line_of (opt_weights : list R) (i : nat) (t : string)
  : outcome allocation_line :=
  bind_outcome (item opt_weights i) (fun o =>
  bind_outcome (item CURRENT_WEIGHTS i) (fun c =>
  let delta := o - c in
  let arr := arrow_of delta in
  bind_outcome (sector_of t) (fun s =>
  Done (mkLine t s c o arr (Rabs delta))))).

(** The loop over [enumerate(TICKERS)]. *)
Fixpoint allocation_lines (opt_weights : list R) (i : nat)
    (tickers : list string) : outcome (list allocation_line) :=
  match tickers with
  | [] => Done []
  | t :: rest =>
      bind_outcome (allocation_line_of opt_weights i t) (fun line =>
      bind_outcome (allocation_lines opt_weights (S i) rest) (fun lines =>
      Done (line :: lines)))
  end.

(** The finite values of an array of doubles, when all of them are. *)
Fixpoint finite_values (a : list float64) : option (list R) :=
  match a with
  | [] => Some []
  | Fin r :: rest =>
      match finite_values rest with
      | Some rs => Some (r :: rs)
      | None => None
      end
  | _ :: _ => None
  end.

(** [np.percentile(sims, q)] on the simulated values, which are all finite
    or all NaN: the percentile of the finite values, and NaN once the data
    holds a NaN. *)
Definition simulation_percentile (sims : list float64) (q : R)
  : result float64 :=
  match finite_values sims with
  | Some xs => p <- np_percentile xs q ;; Ok (Fin p)
  | None => Ok NaN
  end.

(** One block of metrics of the returned dictionary. *)
Record metrics : Type := mkMetrics {
  m_return : float64;
  m_vol : float64;
  m_sharpe : float64;
  m_var : float64;
  m_cvar : float64;
  m_beta : float64
}.

(** What [print_report] works out: the lines of the allocation table and
    the dictionary it returns.  The text written to the console is not
    modelled. *)
Record report : Type := mkReport {
  table : list allocation_line;
  current : metrics;
  optimal : metrics;
  opt_weights_out : list R;
  mc : float64 * float64 * float64
}.

Definition print_report (scipy_stats : option (R -> float64))
    (returns_df prices_df : DataFrame) (opt_weights : list R) : run report :=
  m1 <~ pure_step (portfolio_metrics CURRENT_WEIGHTS returns_df) ;;
  v1 <~ pure_step
          (calculate_var scipy_stats CURRENT_WEIGHTS returns_df (99 / 100)) ;;
  beta_curr <~ random_step (calculate_beta CURRENT_WEIGHTS returns_df) ;;
  m2 <~ pure_step (portfolio_metrics opt_weights returns_df) ;;
  v2 <~ pure_step
          (calculate_var scipy_stats opt_weights returns_df (99 / 100)) ;;
  beta_opt <~ random_step (calculate_beta opt_weights returns_df) ;;
  lines <~ lookup_step (allocation_lines opt_weights 0 TICKERS) ;;
  sims <~ random_step (monte_carlo opt_weights returns_df 10000 252) ;;
  p5 <~ pure_step (simulation_percentile sims 5) ;;
  p50 <~ pure_step (simulation_percentile sims 50) ;;
  p95 <~ pure_step (simulation_percentile sims 95) ;;
  let '(cr, cv, cs) := m1 in
  let '(vH, vP, cvar) := v1 in
  let '(or_, ov, os_) := m2 in
  let '(vH2, vP2, cvar2) := v2 in
  fun st =>
    (Done (mkReport lines
                    (mkMetrics cr cv cs vH cvar beta_curr)
                    (mkMetrics or_ ov os_ vH2 cvar2 beta_opt)
                    opt_weights
                    (p5, p50, p95)),
     st).

(* ================================================================= *)
(** ** The specification's formulas

    Written from the specification's prose with sums over period and asset
    indices; the theorems below relate them to the program's pandas
    pipeline. *)

Fixpoint big_sum (f : nat -> R) (n : nat) : R :=
  match n with
  | O => 0
  | S k => big_sum f k + f k
  end.

(** "Portfolio period return = weights . returnRow" *)
Definition spec_period_return (weights row : list R) : R :=
  big_sum (fun j => nth j weights 0 * nth j row 0) (length weights).

Definition spec_period_returns (weights : list R) (df : DataFrame)
  : list R :=
  map (spec_period_return weights) (rows df).

(** Sample mean of a series. *)
Definition spec_mean (xs : list R) : R :=
  big_sum (fun t => nth t xs 0) (length xs) / INR (length xs).

(** Sample (n - 1) standard deviation of a series. *)
Definition spec_std (xs : list R) : R :=
  sqrt (big_sum (fun t => (nth t xs 0 - spec_mean xs) ^ 2) (length xs)
        / (INR (length xs) - 1)).

(** The feasible set of the optimizer: the budget within 1e-6 and every
    position within the limits. *)
Definition feasible (w : list float64) : Prop :=
  (exists s, fsum w = Fin s /\ Rabs (s - 1) <= 1 / 1000000) /\
  Forall (fun e => exists r, e = Fin r /\ 2 / 100 <= r <= 25 / 100) w.

(** [A @ B] *)
Definition mat_mul (A B : matrix) : matrix :=
  map (fun row => vec_mat row B) A.

(** "Drawn from a normal distribution with mean [(mu - 0.5 sig^2) * horizon]
    and standard deviation [sig * sqrt horizon]": that location plus that
    scale times a standard normal variate [z]. *)
Definition spec_log_return (mu sig horizon z : R) : R :=
  (mu - 1 / 2 * sig ^ 2) * horizon + sig * sqrt horizon * z.

(** The [i]-th standard normal variate the generator yields from state
    [st] on. *)
Definition variate_from (st : RandomState) (i : nat) : R :=
  variates st (cursor st + i).

(** The generator after [n] draws. *)
Definition advance (st : RandomState) (n : nat) : RandomState :=
  mkRS (variates st) (cursor st + n).

(** The noise a call of [calculate_beta] draws for its benchmark. *)
Definition beta_noise (df : DataFrame) (st : RandomState) : list float64 :=
  map (fun i => Fin (0 + 3 / 1000 * variate_from st i)) (seq 0 (nrows df)).

(* ================================================================= *)
(** ** Quantities the properties are stated with *)

(** The interpolated order statistic at a virtual index. *)
Definition order_statistic (s : list R) (v : R) : R :=
  let i := Z.to_nat (Zfloor v) in
  nth i s 0
  + (nth (Nat.min (i + 1) (length s - 1)) s 0 - nth i s 0) * (v - INR i).

(** The scaled returns strictly above [t2] and at or below [t1]. *)
Definition between (t2 t1 : R) (xs : list R) : list R :=
  filter (fun v => negb (fle (Fin v) (Fin t2)) && fle (Fin v) (Fin t1)) xs.

(** The weights [k * w]. *)
Definition scale (k : R) (l : list R) : list R := map (Rmult k) l.

(** The location and the scale [monte_carlo] hands to the generator. *)
Definition mc_loc (pr : list R) (horizon : R) : float64 :=
  fmul (fsub (mean pr) (fmul (Fin (1 / 2)) (fmul (std pr) (std pr))))
       (Fin horizon).

Definition mc_scale (pr : list R) (horizon : R) : float64 :=
  fmul (std pr) (fsqrt (Fin horizon)).

(** Sample covariance of two columns, as [np.cov] computes it. *)
Definition centered (c : list R) : list R :=
  map (fun e => e + - (sum c / INR (length c))) c.

Definition sample_cov (ci cj : list R) : R :=
  dot (centered ci) (centered cj) * (1 / INR (length ci - 1)).

(** The annualized covariance matrix of a frame of two or more periods. *)
Definition annual_cov_entry (df : DataFrame) (i j : nat) : R :=
  sample_cov (column df i) (column df j) * TRADE_DAYS.

(** The entry of row [t], column [j] of a frame. *)
Definition cell (df : DataFrame) (t j : nat) : R :=
  nth j (nth t (rows df) []) 0.

(** Deviation of a cell from its column mean. *)
Definition deviation (df : DataFrame) (t j : nat) : R :=
  cell df t j - spec_mean (column df j).

(** The two frames [generate_price_data] builds from a factor [L] and the
    normal variates [zs]. *)
Definition returns_of (L : list (list R)) (n : nat) (zs : list R)
  : list (list R) :=
  map (fun row =>
         map2 Rplus (map (fun m => m / TRADE_DAYS) mu_annual)
              (map2 Rmult row
                    (map (fun s => s / sqrt TRADE_DAYS) sigma_annual)))
      (map (fun z => map (fun l => dot z l) L) (reshape 10 n zs)).

Definition prices_of (returns : list (list R)) : list (list R) :=
  map (map (Rmult 100)) (np_cumprod (map (map (Rplus 1)) returns)).

(** The simulated benchmark of [calculate_beta], on a frame with at least
    one column. *)
Definition benchmark (df : DataFrame) (st : RandomState) : list R :=
  map2 Rplus
       (map (fun row => spec_mean row * (85 / 100)) (rows df))
       (map (fun i => 0 + 3 / 1000 * variate_from st i) (seq 0 (nrows df))).

(** The weights [a * w1 + c * w2]. *)
Definition combine_weights (a : R) (w1 : list R) (c : R) (w2 : list R)
  : list R :=
  map2 Rplus (scale a w1) (scale c w2).

(* ================================================================= *)
(** ** Sample data *)

(** The specification's end-to-end scenario: two assets, four periods,
    equal weights. *)
Definition scenario_df : DataFrame :=
  mkDF 2 [[1 / 100; 2 / 100]; [- 1 / 100; 0];
          [2 / 100; 1 / 100]; [0; - 2 / 100]].

Definition scenario_weights : list R := [1 / 2; 1 / 2].

(** One asset whose return repeats: zero sample deviation. *)
Definition flat_df : DataFrame := mkDF 1 [[1 / 100]; [1 / 100]].

(** One asset, a losing period and a winning one. *)
Definition loss_df : DataFrame := mkDF 1 [[- 1 / 100]; [1 / 100]].

(** A generator whose first variate is -1 and whose later ones are 0. *)
Definition tape : nat -> R := fun i => match i with O => - 1 | _ => 0 end.

(** An instance of the quantile parameter for the examples: the infinite
    endpoints of [norm.ppf], and its median value elsewhere. *)
Definition ppf_tails (p : R) : float64 :=
  if Rle_dec p 0 then NInf else if Rle_dec 1 p then PInf else Fin 0.

(** Ten assets over two periods; only the first asset moves. *)
Definition one_mover_df : DataFrame :=
  mkDF 10 [[1 / 100; 0; 0; 0; 0; 0; 0; 0; 0; 0];
           [0; 0; 0; 0; 0; 0; 0; 0; 0; 0]].

Definition diagonal (d : list R) : matrix :=
  map (fun i =>
         map (fun j => Fin (if Nat.eqb i j then nth i d 0 else 0))
             (seq 0 (length d)))
      (seq 0 (length d)).

Definition identity (n : nat) : matrix := diagonal (repeat 1 n).

(** The regularized annual covariance of [one_mover_df], its inverse, and
    the weights the minimum-variance branch makes of them. *)
Definition one_mover_regularized : matrix :=
  diagonal (1260001 / 100000000 :: repeat (1 / 100000000) 9).

Definition one_mover_inverse : matrix :=
  diagonal (100000000 / 1260001 :: repeat 100000000 9).

Definition one_mover_weights : list float64 :=
  map Fin (1134001 / 57834046 :: repeat (6300005 / 57834046) 9).

(** Two outcomes of a solver run: convergence at the starting point, and a
    failure that leaves a NaN iterate. *)
Definition solver_converged_at_start : minimize_t :=
  fun _ x0 _ _ _ _ _ => mkResult x0 true.

Definition solver_failed : minimize_t :=
  fun _ x0 _ _ _ _ _ => mkResult (map (fun _ => NaN) x0) false.

Definition no_inverse : matrix -> result matrix :=
  fun _ => Raise LinAlgError.

(** One asset observed over a single period. *)
Definition single_period_df : DataFrame := mkDF 1 [[1 / 100]].

(** [one_mover_inverse], entry by entry. *)
Definition one_mover_inverse_values : list (list R) :=
  map (fun i =>
         map (fun j =>
                if Nat.eqb i j
                then nth i (100000000 / 1260001 :: repeat 100000000 9) 0
                else 0)
             (seq 0 10))
      (seq 0 10).

(** Two outcomes of the Cholesky routine for the examples: a ten-by-ten
    factor (the identity), and the failure on a matrix that is not positive
    definite. *)
Definition cholesky_identity : list (list R) -> result (list (list R)) :=
  fun _ =>
    Ok (map (fun i => map (fun j => if Nat.eqb i j then 1 else 0) (seq 0 10))
            (seq 0 10)).

Definition cholesky_fails : list (list R) -> result (list (list R)) :=
  fun _ => Raise LinAlgError.

(* ================================================================= *)
(** ** Tactics *)

(** Deciding the comparisons of a computation on concrete data. *)
Ltac decide_R :=
  repeat match goal with
  | |- context [Req_dec_T ?a ?b] => destruct (Req_dec_T a b); try lra
  | |- context [Rlt_dec ?a ?b] => destruct (Rlt_dec a b); try lra
  | |- context [Rle_dec ?a ?b] => destruct (Rle_dec a b); try lra
  | |- context [total_order_T ?a ?b] =>
      destruct (total_order_T a b) as [[?|?]|?]; try lra
  end.

(** Evaluating a computation on doubles over concrete data. *)
Ltac float_eval :=
  repeat first
    [ progress cbn [fadd fsub fmul fdiv fneg fsqrt fexp fsum fdot fmean
                    map2 map fold_left length hd nth entry seq INR
                    Nat.sub Nat.add bind]
    | match goal with
      | |- context [Req_dec_T ?a ?b] =>
          destruct (Req_dec_T a b); [try (exfalso; lra)|try (exfalso; lra)]
      | |- context [Rlt_dec ?a ?b] =>
          destruct (Rlt_dec a b); [try (exfalso; lra)|try (exfalso; lra)]
      | |- context [Rle_dec ?a ?b] =>
          destruct (Rle_dec a b); [try (exfalso; lra)|try (exfalso; lra)]
      | |- context [total_order_T ?a ?b] =>
          destruct (total_order_T a b) as [[?|?]|?]; try (exfalso; lra)
      end ].

(** Equality of lists of finite doubles, entry by entry. *)
Ltac fin_lists :=
  repeat match goal with
  | |- Ok _ = Ok _ => apply f_equal
  | |- (_ :: _) = (_ :: _) => apply f_equal2
  | |- Fin _ = Fin _ => apply f_equal; (lra || field)
  | |- [] = [] => reflexivity
  end.

(** Products and sums with an infinity: by the sign of the finite operand. *)
Ltac sign_cases :=
  unfold inf_of_sign;
  repeat match goal with
  | |- context [total_order_T ?a ?b] =>
      destruct (total_order_T a b) as [[?|?]|?]
  end;
  cbn [fneg fmul fadd]; try reflexivity; try (exfalso; nra).

(** [float_eval] on data that is not concrete: the comparisons it cannot
    decide are split. *)
Ltac float_cases :=
  repeat first
    [ progress float_eval
    | progress unfold inf_of_sign
    | match goal with
      | |- context [total_order_T ?a ?b] =>
          destruct (total_order_T a b) as [[?|?]|?]; try (exfalso; nra)
      end ].

(* ================================================================= *)
(** ** Sums *)

Lemma fold_left_Rplus (l : list R) (a : R) :
  fold_left Rplus l a = a + sum l.
Proof.
  unfold sum. revert a.
  induction l as [|h t IH]; intros a; simpl.
  - lra.
  - rewrite IH. rewrite (IH (0 + h)). lra.
Qed.

Lemma sum_nil : sum [] = 0.
Proof. reflexivity. Qed.

Lemma sum_cons (a : R) (l : list R) : sum (a :: l) = a + sum l.
Proof. unfold sum at 1. simpl. rewrite fold_left_Rplus. lra. Qed.

Lemma big_sum_ext (f g : nat -> R) (n : nat) :
  (forall i, (i < n)%nat -> f i = g i) -> big_sum f n = big_sum g n.
Proof.
  induction n as [|n IH]; intros H; simpl.
  - reflexivity.
  - rewrite IH by (intros; apply H; lia). rewrite H by lia. reflexivity.
Qed.

Lemma big_sum_shift (f : nat -> R) (n : nat) :
  big_sum f (S n) = f O + big_sum (fun i => f (S i)) n.
Proof.
  induction n as [|n IH].
  - simpl. lra.
  - change (big_sum f (S (S n))) with (big_sum f (S n) + f (S n)).
    rewrite IH. simpl. lra.
Qed.

Lemma big_sum_zero (f : nat -> R) (n : nat) :
  (forall i, (i < n)%nat -> f i = 0) -> big_sum f n = 0.
Proof.
  induction n as [|n IH]; intros H; simpl.
  - reflexivity.
  - rewrite IH by (intros; apply H; lia). rewrite H by lia. lra.
Qed.

Lemma sum_big_sum (l : list R) :
  sum l = big_sum (fun t => nth t l 0) (length l).
Proof.
  induction l as [|h t IH].
  - reflexivity.
  - rewrite sum_cons. cbn [length]. rewrite big_sum_shift. cbn [nth].
    rewrite IH. reflexivity.
Qed.

Lemma sum_map_big_sum (f : R -> R) (l : list R) :
  sum (map f l) = big_sum (fun t => f (nth t l 0)) (length l).
Proof.
  induction l as [|h t IH].
  - reflexivity.
  - cbn [map]. rewrite sum_cons. cbn [length]. rewrite big_sum_shift.
    cbn [nth]. rewrite IH. reflexivity.
Qed.

Lemma sum_squares_nonneg (c : R) (l : list R) :
  0 <= sum (map (fun v => (c - v) * (c - v)) l).
Proof.
  induction l as [|h t IH]; cbn [map].
  - rewrite sum_nil. lra.
  - rewrite sum_cons. pose proof (Rle_0_sqr (c - h)) as Hsq.
    unfold Rsqr in Hsq. lra.
Qed.

(** The program's row-by-weights product is the specification's indexed
    sum, whatever the two lengths. *)
Lemma dot_spec (row w : list R) : dot row w = spec_period_return w row.
Proof.
  unfold dot, spec_period_return. revert row.
  induction w as [|a w IH]; intros row.
  - destruct row; reflexivity.
  - destruct row as [|b row].
    + cbn [combine map]. rewrite sum_nil. symmetry.
      apply big_sum_zero. intros i _. destruct i; cbn [nth]; lra.
    + cbn [combine map fst snd length]. rewrite sum_cons, big_sum_shift.
      cbn [nth]. rewrite IH. lra.
Qed.

Lemma df_matmul_spec (df : DataFrame) (w : list R) :
  ncols df = length w ->
  df_matmul df w = Ok (spec_period_returns w df).
Proof.
  intros H. unfold df_matmul, spec_period_returns.
  rewrite H, Nat.eqb_refl. f_equal.
  apply map_ext. intros row. apply dot_spec.
Qed.

Lemma spec_period_returns_length (w : list R) (df : DataFrame) :
  length (spec_period_returns w df) = nrows df.
Proof. unfold spec_period_returns, nrows. apply length_map. Qed.

(* ================================================================= *)
(** ** Series statistics on finite data *)

Lemma INR_length_pos (A : Type) (l : list A) :
  l <> [] -> 0 < INR (length l).
Proof.
  intros H. destruct l as [|a l]; [congruence|].
  apply lt_0_INR. cbn [length]. lia.
Qed.

Lemma fdiv_Fin (a b : R) : b <> 0 -> fdiv (Fin a) (Fin b) = Fin (a / b).
Proof.
  intros H. unfold fdiv. destruct (Req_dec_T b 0); [contradiction|reflexivity].
Qed.

Lemma fsqrt_Fin (a : R) : 0 <= a -> fsqrt (Fin a) = Fin (sqrt a).
Proof.
  intros H. unfold fsqrt. destruct (Rlt_dec a 0); [lra|reflexivity].
Qed.

Lemma mean_Fin (xs : list R) :
  xs <> [] -> mean xs = Fin (spec_mean xs).
Proof.
  intros H. unfold mean, spec_mean.
  rewrite fdiv_Fin.
  - rewrite sum_big_sum. reflexivity.
  - pose proof (INR_length_pos _ xs H). lra.
Qed.

Lemma sample_variance_nonneg (xs : list R) :
  (2 <= length xs)%nat ->
  0 <= big_sum (fun t => (nth t xs 0 - spec_mean xs) ^ 2) (length xs)
       / (INR (length xs) - 1).
Proof.
  intros H.
  assert (Hn : 1 <= INR (length xs) - 1).
  { apply le_INR in H. simpl in H. lra. }
  apply Rmult_le_pos.
  - rewrite <- (sum_map_big_sum (fun v => (v - spec_mean xs) ^ 2)).
    rewrite (map_ext _ (fun v => (spec_mean xs - v) * (spec_mean xs - v)))
      by (intros; ring).
    apply sum_squares_nonneg.
  - apply Rlt_le, Rinv_0_lt_compat. lra.
Qed.

Lemma var_Fin (xs : list R) :
  (2 <= length xs)%nat ->
  var xs = Fin (big_sum (fun t => (nth t xs 0 - spec_mean xs) ^ 2)
                        (length xs) / (INR (length xs) - 1)).
Proof.
  intros H. unfold var.
  destruct (Nat.leb_spec (length xs) 1) as [Hle|_]; [lia|].
  f_equal. f_equal.
  rewrite sum_map_big_sum. apply big_sum_ext. intros i _.
  unfold spec_mean. rewrite <- sum_big_sum. ring.
Qed.

Lemma std_Fin (xs : list R) :
  (2 <= length xs)%nat -> std xs = Fin (spec_std xs).
Proof.
  intros H. unfold std. rewrite var_Fin by assumption.
  rewrite fsqrt_Fin by (apply sample_variance_nonneg; assumption).
  reflexivity.
Qed.

Lemma spec_std_nonneg (xs : list R) : 0 <= spec_std xs.
Proof. apply sqrt_pos. Qed.

(* ================================================================= *)
(** ** Portfolio metrics *)

Lemma portfolio_metrics_closed_form (weights : list R) (df : DataFrame) :
  ncols df = length weights ->
  (2 <= nrows df)%nat ->
  portfolio_metrics weights df =
    Ok (Fin (spec_mean (spec_period_returns weights df) * 252),
        Fin (spec_std (spec_period_returns weights df) * sqrt 252),
        fdiv (Fin (spec_mean (spec_period_returns weights df) * 252
                   - RISK_FREE))
             (Fin (spec_std (spec_period_returns weights df) * sqrt 252))).
Proof.
  intros Hshape HT.
  pose proof (spec_period_returns_length weights df) as Hlen.
  assert (Hne : spec_period_returns weights df <> []).
  { intros E. rewrite E in Hlen. simpl in Hlen. lia. }
  unfold portfolio_metrics. rewrite df_matmul_spec by assumption.
  cbn [bind].
  rewrite mean_Fin by assumption.
  rewrite std_Fin by lia.
  unfold TRADE_DAYS. rewrite fsqrt_Fin by lra.
  reflexivity.
Qed.

(** C3: with matching shapes and at least two periods, [portfolio_metrics]
    returns the mean of the per-period portfolio returns times 252, their
    sample standard deviation times sqrt 252, and the quotient of the excess
    return (over the 5.25% risk-free rate) by that volatility; the quotient
    is the real one whenever the volatility is not zero. *)
Theorem portfolio_metrics_formulas (weights : list R) (df : DataFrame) :
  ncols df = length weights ->
  (2 <= nrows df)%nat ->
  let r := spec_period_returns weights df in
  let ann_return := spec_mean r * 252 in
  let ann_vol := spec_std r * sqrt 252 in
  portfolio_metrics weights df =
    Ok (Fin ann_return, Fin ann_vol,
        fdiv (Fin (ann_return - RISK_FREE)) (Fin ann_vol)) /\
  (ann_vol <> 0 ->
   portfolio_metrics weights df =
     Ok (Fin ann_return, Fin ann_vol,
         Fin ((ann_return - RISK_FREE) / ann_vol))).
Proof.
  intros Hshape HT r ann_return ann_vol.
  pose proof (portfolio_metrics_closed_form weights df Hshape HT) as Hmain.
  fold r in Hmain. fold ann_return in Hmain. fold ann_vol in Hmain.
  split; [exact Hmain|].
  intros Hvol. rewrite Hmain. rewrite fdiv_Fin by assumption. reflexivity.
Qed.

Lemma portfolio_metrics_formulas_witness :
  exists m, portfolio_metrics scenario_weights scenario_df = Ok m.
Proof.
  assert (HT : (2 <= nrows scenario_df)%nat) by (unfold nrows; simpl; lia).
  pose proof (portfolio_metrics_formulas scenario_weights scenario_df
                eq_refl HT) as H.
  cbv zeta in H. destruct H as [H _].
  eexists. exact H.
Defined.




(* ================================================================= *)
(** ** Order statistics *)

Lemma insert_perm (v : R) (l : list R) : Permutation (v :: l) (insert v l).
Proof.
  induction l as [|h t IH]; simpl.
  - apply Permutation_refl.
  - destruct (Rle_dec v h).
    + apply Permutation_refl.
    + eapply Permutation_trans; [apply perm_swap|].
      apply perm_skip. exact IH.
Qed.

Lemma np_sort_perm (l : list R) : Permutation l (np_sort l).
Proof.
  induction l as [|h t IH]; simpl.
  - apply perm_nil.
  - eapply Permutation_trans; [apply perm_skip; exact IH|].
    apply insert_perm.
Qed.

Lemma insert_sorted (v : R) (l : list R) :
  StronglySorted Rle l -> StronglySorted Rle (insert v l).
Proof.
  induction 1 as [|h t Hs IH Hall]; simpl.
  - constructor; constructor.
  - destruct (Rle_dec v h) as [Hle|Hgt].
    + constructor.
      * constructor; assumption.
      * constructor; [assumption|].
        eapply Forall_impl; [|exact Hall].
        intros a Ha. simpl in Ha. lra.
    + constructor; [exact IH|].
      eapply Permutation_Forall; [apply insert_perm|].
      constructor; [lra|assumption].
Qed.

Lemma np_sort_sorted (l : list R) : StronglySorted Rle (np_sort l).
Proof.
  induction l as [|h t IH]; simpl.
  - constructor.
  - apply insert_sorted. exact IH.
Qed.

Lemma np_sort_length (l : list R) : length (np_sort l) = length l.
Proof. symmetry. apply Permutation_length, np_sort_perm. Qed.

Lemma sorted_nth_le (s : list R) :
  StronglySorted Rle s ->
  forall i j, (i <= j < length s)%nat -> nth i s 0 <= nth j s 0.
Proof.
  induction 1 as [|h t Hs IH Hall]; intros i j Hij.
  - simpl in Hij. lia.
  - destruct i as [|i], j as [|j]; cbn [nth].
    + lra.
    + rewrite Forall_forall in Hall. apply Hall.
      apply nth_In. simpl in Hij. lia.
    + lia.
    + apply IH. simpl in Hij. lia.
Qed.

(** The first order statistic is the sample minimum. *)
Lemma np_sort_min (a : list R) :
  a <> [] ->
  In (nth 0 (np_sort a) 0) a /\
  forall v, In v a -> nth 0 (np_sort a) 0 <= v.
Proof.
  intros Hne.
  assert (Hlen : (0 < length (np_sort a))%nat).
  { rewrite np_sort_length. destruct a; [congruence|simpl; lia]. }
  split.
  - eapply Permutation_in; [apply Permutation_sym, np_sort_perm|].
    apply nth_In. exact Hlen.
  - intros v Hv.
    apply (Permutation_in _ (np_sort_perm a)) in Hv.
    destruct (In_nth _ _ 0 Hv) as [k [Hk Hnth]].
    rewrite <- Hnth.
    apply sorted_nth_le; [apply np_sort_sorted|lia].
Qed.

(** With a valid percentile and a non-empty sample, [np_percentile] returns
    a value that is at least the sample minimum. *)
Lemma np_percentile_lower_bound (a : list R) (q : R) :
  a <> [] -> 0 <= q <= 100 ->
  exists t,
    np_percentile a q = Ok t /\ nth 0 (np_sort a) 0 <= t.
Proof.
  intros Hne Hq. unfold np_percentile.
  destruct (Rle_dec 0 (q / 100)) as [Hp0|Hn]; [|exfalso; lra].
  destruct (Rle_dec (q / 100) 1) as [Hp1|Hn]; [|exfalso; lra].
  destruct a as [|a0 a']; [congruence|].
  set (a := a0 :: a') in *.
  set (n := length a).
  assert (Hn1 : (1 <= n)%nat) by (unfold n, a; simpl; lia).
  assert (HnR : 1 <= INR n) by (change 1 with (INR 1); apply le_INR, Hn1).
  set (virt := (INR n - 1) * (q / 100)).
  assert (Hv : 0 <= virt <= INR n - 1).
  { unfold virt. generalize dependent (q / 100). intros p Hp0 Hp1. nra. }
  assert (Hf0 : (0 <= Zfloor virt)%Z) by (apply Zfloor_lub; simpl; lra).
  assert (HfN : (Zfloor virt <= Z.of_nat (n - 1))%Z).
  { rewrite <- (ZfloorZ (Z.of_nat (n - 1))). apply Zfloor_le.
    rewrite <- INR_IZR_INZ, minus_INR by lia. change (INR 1) with 1. lra. }
  set (i := Z.to_nat (Zfloor virt)).
  assert (HiN : (i <= n - 1)%nat) by (unfold i; lia).
  assert (HiR : INR i = IZR (Zfloor virt)).
  { unfold i. rewrite INR_IZR_INZ, Z2Nat.id by assumption. reflexivity. }
  pose proof (Zfloor_bound virt) as Hb.
  eexists. split; [reflexivity|].
  set (s := np_sort a).
  assert (Hs : StronglySorted Rle s) by apply np_sort_sorted.
  assert (Hsl : length s = n) by apply np_sort_length.
  assert (H0i : nth 0 s 0 <= nth i s 0)
    by (apply sorted_nth_le; [assumption|lia]).
  assert (Hlohi : nth i s 0 <= nth (Nat.min (i + 1) (n - 1)) s 0)
    by (apply sorted_nth_le; [assumption|lia]).
  assert (Hg : 0 <= virt - INR i) by lra.
  nra.
Qed.

Lemma np_percentile_Ok_inv (a : list R) (q t : R) :
  np_percentile a q = Ok t -> a <> [] /\ 0 <= q <= 100.
Proof.
  unfold np_percentile.
  destruct (Rle_dec 0 (q / 100)); [|discriminate].
  destruct (Rle_dec (q / 100) 1); [|discriminate].
  destruct a; [discriminate|].
  intros _. split; [discriminate|lra].
Qed.

Lemma at_or_below_In (t v : R) (xs : list R) :
  In v (at_or_below t xs) <-> In v xs /\ v <= t.
Proof.
  unfold at_or_below. rewrite filter_In. unfold fle.
  destruct (Rle_dec v t); intuition congruence.
Qed.

Lemma spec_mean_sum (xs : list R) : spec_mean xs = sum xs / INR (length xs).
Proof. unfold spec_mean. rewrite <- sum_big_sum. reflexivity. Qed.

Lemma sum_le_bound (t : R) (xs : list R) :
  (forall v, In v xs -> v <= t) -> sum xs <= INR (length xs) * t.
Proof.
  induction xs as [|h l IH]; intros H.
  - rewrite sum_nil. simpl. lra.
  - rewrite sum_cons. change (length (h :: l)) with (S (length l)).
    rewrite S_INR.
    assert (h <= t) by (apply H; left; reflexivity).
    assert (sum l <= INR (length l) * t)
      by (apply IH; intros; apply H; right; assumption).
    lra.
Qed.

Lemma spec_mean_le_bound (t : R) (xs : list R) :
  xs <> [] -> (forall v, In v xs -> v <= t) -> spec_mean xs <= t.
Proof.
  intros Hne H. rewrite spec_mean_sum.
  pose proof (INR_length_pos _ xs Hne) as Hpos.
  pose proof (sum_le_bound t xs H) as Hs.
  apply Rmult_le_reg_r with (r := INR (length xs)); [assumption|].
  unfold Rdiv. rewrite Rmult_assoc, Rinv_l by lra. lra.
Qed.

(* ================================================================= *)
(** ** Value at Risk *)

(** What [calculate_var] returns once the portfolio returns and the
    percentile threshold are known. *)
Lemma calculate_var_closed_form (ppf : R -> float64) (weights : list R)
    (df : DataFrame) (confidence : R) (pr : list R) (t : R) :
  df_matmul df weights = Ok pr ->
  np_percentile (map (fun r => r * AUM) pr) ((1 - confidence) * 100) = Ok t ->
  let port_dollar := map (fun r => r * AUM) pr in
  at_or_below t port_dollar <> [] /\
  (forall v, In v (at_or_below t port_dollar) -> v <= t) /\
  calculate_var (Some ppf) weights df confidence =
    Ok (Fin (- t),
        fneg (fadd (mean port_dollar)
                   (fmul (ppf (1 - confidence)) (std port_dollar))),
        Fin (- spec_mean (at_or_below t port_dollar))).
Proof.
  intros Hpr Ht port_dollar.
  destruct (np_percentile_Ok_inv _ _ _ Ht) as [Hne Hq].
  destruct (np_percentile_lower_bound _ _ Hne Hq) as [t' [Ht' Hmin]].
  fold port_dollar in Ht, Ht', Hmin, Hne.
  assert (t' = t) by congruence. subst t'.
  destruct (np_sort_min port_dollar Hne) as [Hin _].
  assert (Htail : at_or_below t port_dollar <> []).
  { intros E.
    assert (Hm : In (nth 0 (np_sort port_dollar) 0)
                    (at_or_below t port_dollar))
      by (apply at_or_below_In; split; assumption).
    rewrite E in Hm. exact Hm. }
  split; [exact Htail|]. split.
  - intros v Hv. apply at_or_below_In in Hv. tauto.
  - unfold calculate_var. rewrite Hpr. cbn [bind]. fold port_dollar.
    rewrite Ht. cbn [bind import].
    rewrite (mean_Fin (at_or_below t port_dollar)) by assumption.
    reflexivity.
Qed.

(** C10: for a non-empty return series, matching shapes and a confidence in
    (0,1), the percentile threshold is at least the smallest currency-scaled
    return, the tail at or below the threshold is not empty, and the CVaR
    that [calculate_var] returns is the (finite) negated mean of that tail. *)
Theorem cvar_tail_nonempty (ppf : R -> float64) (weights : list R)
    (df : DataFrame) (confidence : R) :
  ncols df = length weights ->
  (1 <= nrows df)%nat ->
  0 < confidence < 1 ->
  let port_dollar :=
    map (fun r => r * AUM) (spec_period_returns weights df) in
  exists t var_param,
    np_percentile port_dollar ((1 - confidence) * 100) = Ok t /\
    (exists m, In m port_dollar /\
               (forall v, In v port_dollar -> m <= v) /\ m <= t) /\
    at_or_below t port_dollar <> [] /\
    calculate_var (Some ppf) weights df confidence =
      Ok (Fin (- t), var_param,
          Fin (- spec_mean (at_or_below t port_dollar))).
Proof.
  intros Hshape HT Hc port_dollar.
  assert (Hne : port_dollar <> []).
  { intros E. apply (f_equal (@length R)) in E.
    unfold port_dollar in E.
    rewrite length_map, spec_period_returns_length in E. simpl in E. lia. }
  destruct (np_percentile_lower_bound port_dollar ((1 - confidence) * 100)
              Hne) as [t [Ht Hmin]]; [lra|].
  destruct (np_sort_min port_dollar Hne) as [Hin Hle].
  pose proof (calculate_var_closed_form ppf weights df confidence
                (spec_period_returns weights df) t
                (df_matmul_spec df weights Hshape) Ht) as [Htail [_ Hcv]].
  exists t. eexists. split; [exact Ht|]. split; [|split].
  - exists (nth 0 (np_sort port_dollar) 0). repeat split; assumption.
  - exact Htail.
  - exact Hcv.
Qed.

Lemma cvar_tail_nonempty_witness :
  exists r, calculate_var (Some (fun _ => Fin 0)) scenario_weights
                          scenario_df CONF_LEVEL = Ok r.
Proof.
  assert (HT : (1 <= nrows scenario_df)%nat) by (unfold nrows; simpl; lia).
  assert (Hc : 0 < CONF_LEVEL < 1) by (unfold CONF_LEVEL; lra).
  destruct (cvar_tail_nonempty (fun _ => Fin 0) scenario_weights scenario_df
              CONF_LEVEL eq_refl HT Hc) as [t [vp [_ [_ [_ H]]]]].
  eexists. exact H.
Defined.

(** C2: for a confidence in (0,1), whenever the portfolio returns are
    defined and the (1 - confidence) empirical percentile [t] of the
    currency-scaled returns is negative, [calculate_var] returns the
    historical VaR [- t] and a CVaR that is the negated mean of the scaled
    returns at or below the same threshold [t], with
    [CVaR >= historical VaR >= 0]. *)
Theorem var_cvar_ordering (ppf : R -> float64) (weights : list R)
    (df : DataFrame) (confidence : R) (pr : list R) (t : R) :
  0 < confidence < 1 ->
  df_matmul df weights = Ok pr ->
  np_percentile (map (fun r => r * AUM) pr) ((1 - confidence) * 100) = Ok t ->
  t < 0 ->
  exists var_hist var_param cvar,
    calculate_var (Some ppf) weights df confidence =
      Ok (Fin var_hist, var_param, Fin cvar) /\
    var_hist = - t /\
    cvar = - spec_mean (at_or_below t (map (fun r => r * AUM) pr)) /\
    0 <= var_hist <= cvar.
Proof.
  intros Hc Hpr Ht Hneg.
  destruct (calculate_var_closed_form ppf weights df confidence pr t Hpr Ht)
    as [Htail [Hle Hcv]].
  do 3 eexists. split; [exact Hcv|].
  split; [reflexivity|]. split; [reflexivity|].
  pose proof (spec_mean_le_bound t _ Htail Hle). lra.
Qed.

Lemma loss_df_returns : df_matmul loss_df [1] = Ok [- 1 / 100; 1 / 100].
Proof.
  unfold df_matmul, loss_df. cbn [ncols rows length Nat.eqb map].
  unfold dot, sum. cbn [combine map fst snd fold_left].
  f_equal. repeat (f_equal; try lra).
Qed.

Lemma loss_df_percentile_10 :
  np_percentile (map (fun r => r * AUM) [- 1 / 100; 1 / 100])
                ((1 - 9 / 10) * 100) = Ok (- 4000000).
Proof.
  unfold np_percentile, AUM. cbn [map length np_sort fold_right insert].
  decide_R.
  change (INR 2) with (1 + 1).
  replace (Zfloor _) with 0%Z by (symmetry; apply Zfloor_eq; simpl; lra).
  cbn [Z.to_nat Nat.add Nat.sub Nat.min nth INR].
  f_equal. lra.
Qed.

Lemma var_cvar_ordering_witness :
  exists var_hist var_param cvar,
    calculate_var (Some (fun _ => Fin 0)) [1] loss_df (9 / 10) =
      Ok (Fin var_hist, var_param, Fin cvar) /\
    0 <= var_hist <= cvar.
Proof.
  assert (Hc : 0 < 9 / 10 < 1) by lra.
  assert (Hneg : - 4000000 < 0) by lra.
  destruct (var_cvar_ordering (fun _ => Fin 0) [1] loss_df (9 / 10)
              [- 1 / 100; 1 / 100] (- 4000000) Hc loss_df_returns
              loss_df_percentile_10 Hneg)
    as [vh [vp [cv [H1 [_ [_ H2]]]]]].
  exists vh, vp, cv. split; assumption.
Defined.

(* ================================================================= *)
(** ** Confidence levels outside (0,1) *)





(* ================================================================= *)
(** ** The generator *)

Lemma gauss_n_spec (n : nat) (st : RandomState) :
  gauss_n n st = (map (variate_from st) (seq 0 n), advance st n).
Proof.
  unfold variate_from, advance.
  revert st. induction n as [|n IH]; intros st.
  - simpl. rewrite Nat.add_0_r. destruct st; reflexivity.
  - cbn [gauss_n]. unfold gauss. rewrite IH. cbn [variates cursor seq map].
    rewrite Nat.add_0_r. f_equal.
    + f_equal. rewrite <- seq_shift, map_map.
      apply map_ext. intros i. f_equal. lia.
    + f_equal. lia.
Qed.

Lemma np_random_normal_Fin (loc scale : R) (size : Z) (st : RandomState) :
  0 <= scale -> (0 <= size)%Z ->
  np_random_normal (Fin loc) (Fin scale) size st =
    (Ok (map (fun i => Fin (loc + scale * variate_from st i))
             (seq 0 (Z.to_nat size))),
     advance st (Z.to_nat size)).
Proof.
  intros Hs Hn. unfold np_random_normal.
  destruct (Z.ltb_spec size 0) as [Hneg|_]; [lia|].
  unfold flt. destruct (Rlt_dec scale 0) as [Hlt|_]; [lra|].
  rewrite gauss_n_spec, map_map. reflexivity.
Qed.

(* ================================================================= *)
(** ** Beta *)

Lemma calculate_beta_closed_form (weights : list R) (df : DataFrame)
    (st : RandomState) :
  calculate_beta weights df st =
    (let bm_returns :=
       map2 fadd
            (map (fun row => fmul (mean row) (Fin (85 / 100))) (rows df))
            (beta_noise df st) in
     port_returns <- df_matmul df weights ;;
     let cov_mat := np_cov [map Fin port_returns; bm_returns] in
     Ok (fdiv (entry cov_mat 0 1) (entry cov_mat 1 1)),
     advance st (nrows df)).
Proof.
  unfold calculate_beta.
  rewrite np_random_normal_Fin by (lra || lia).
  rewrite Nat2Z.id. reflexivity.
Qed.

Lemma calculate_beta_first_call :
  calculate_beta [1] loss_df (mkRS tape 0) = (Ok (Fin 1), mkRS tape 2).
Proof.
  rewrite calculate_beta_closed_form.
  unfold beta_noise, variate_from, advance, nrows, loss_df, df_matmul, mean,
    np_cov, dot, sum.
  cbn [ncols rows length Nat.eqb map combine fst snd fold_left INR
       variates cursor tape seq Nat.add].
  float_eval.
  do 3 f_equal. field.
Qed.

Lemma calculate_beta_second_call :
  calculate_beta [1] loss_df (mkRS tape 2) = (Ok (Fin (20 / 17)), mkRS tape 4).
Proof.
  rewrite calculate_beta_closed_form.
  unfold beta_noise, variate_from, advance, nrows, loss_df, df_matmul, mean,
    np_cov, dot, sum.
  cbn [ncols rows length Nat.eqb map combine fst snd fold_left INR
       variates cursor tape seq Nat.add].
  float_eval.
  do 3 f_equal. field.
Qed.

(** C8, as stated, fails: two successive calls of [calculate_beta] with the
    same weights and the same returns, the second from the generator state
    the first one left, return different betas (1, then 20/17). *)
Lemma calculate_beta_not_deterministic :
  let first := calculate_beta [1] loss_df (mkRS tape 0) in
  let second := calculate_beta [1] loss_df (snd first) in
  fst first = Ok (Fin 1) /\ fst second = Ok (Fin (20 / 17)) /\
  fst first <> fst second.
Proof.
  cbv zeta. rewrite calculate_beta_first_call. cbn [fst snd].
  rewrite calculate_beta_second_call. cbn [fst].
  split; [reflexivity|]. split; [reflexivity|].
  intros E. inversion E. lra.
Qed.

(** C8, amended: [portfolio_metrics] and [calculate_var] are functions of
    their explicit arguments alone, while [calculate_beta] reads as many
    variates from the global generator as there are periods: its value is
    determined by the weights, the returns and those variates (two generator
    states that yield the same next variates give the same beta), and it
    leaves the generator advanced by that many draws. *)
Theorem calculate_beta_reads_generator (weights : list R) (df : DataFrame)
    (st1 st2 : RandomState) :
  (forall i, (i < nrows df)%nat -> variate_from st1 i = variate_from st2 i) ->
  fst (calculate_beta weights df st1) = fst (calculate_beta weights df st2) /\
  snd (calculate_beta weights df st1) = advance st1 (nrows df) /\
  snd (calculate_beta weights df st2) = advance st2 (nrows df).
Proof.
  intros H. rewrite !calculate_beta_closed_form. cbn [fst snd].
  split; [|split; reflexivity].
  assert (E : beta_noise df st1 = beta_noise df st2).
  { unfold beta_noise. apply map_ext_in. intros i Hi.
    apply in_seq in Hi. rewrite H by lia. reflexivity. }
  rewrite E. reflexivity.
Qed.

Lemma calculate_beta_reads_generator_witness :
  fst (calculate_beta [1] loss_df (mkRS tape 2)) =
  fst (calculate_beta [1] loss_df (mkRS tape 7)).
Proof.
  apply (calculate_beta_reads_generator [1] loss_df (mkRS tape 2)
           (mkRS tape 7)).
  intros i _. reflexivity.
Defined.

(* ================================================================= *)
(** ** Monte Carlo *)

Lemma monte_carlo_closed_form (weights : list R) (df : DataFrame)
    (n_sim : Z) (horizon : R) (st : RandomState) :
  ncols df = length weights ->
  (2 <= nrows df)%nat ->
  (0 <= n_sim)%Z ->
  0 <= horizon ->
  monte_carlo weights df n_sim horizon st =
    (Ok (map (fun i =>
                Fin (AUM * exp (spec_log_return
                                  (spec_mean (spec_period_returns weights df))
                                  (spec_std (spec_period_returns weights df))
                                  horizon (variate_from st i))))
             (seq 0 (Z.to_nat n_sim))),
     advance st (Z.to_nat n_sim)).
Proof.
  intros Hshape HT Hn Hh.
  pose proof (spec_period_returns_length weights df) as Hlen.
  assert (Hne : spec_period_returns weights df <> []).
  { intros E. rewrite E in Hlen. simpl in Hlen. lia. }
  unfold monte_carlo. rewrite df_matmul_spec by assumption.
  rewrite mean_Fin by assumption.
  rewrite std_Fin by lia.
  rewrite fsqrt_Fin by assumption.
  cbn [fmul fsub fadd fneg].
  rewrite np_random_normal_Fin;
    [|apply Rmult_le_pos; [apply spec_std_nonneg|apply sqrt_pos]|assumption].
  cbn [bind]. rewrite map_map. f_equal. f_equal.
  apply map_ext. intros i. cbn [fexp fmul].
  f_equal. f_equal. f_equal. unfold spec_log_return. ring.
Qed.

Lemma nth_map_seq (A : Type) (f : nat -> A) (n i : nat) (d : A) :
  (i < n)%nat -> nth i (map f (seq 0 n)) d = f i.
Proof.
  intros Hi.
  rewrite (nth_indep _ d (f O)) by (rewrite length_map, length_seq; exact Hi).
  rewrite map_nth, seq_nth by exact Hi. reflexivity.
Qed.

(** C7: with matching shapes, at least two periods, a positive number of
    trials [n] and a non-negative horizon [h], [monte_carlo] returns exactly
    [n] terminal values; the [i]-th is [AUM * exp x] where [x] is the normal
    draw of mean [(mu - 0.5 sig^2) * h] and standard deviation
    [sig * sqrt h] made from the [i]-th standard normal variate of the
    generator, [mu] and [sig] being the sample mean and the sample standard
    deviation of the per-period portfolio returns. *)
Theorem monte_carlo_terminal_values (weights : list R) (df : DataFrame)
    (n_sim : Z) (horizon : R) (st : RandomState) :
  ncols df = length weights ->
  (2 <= nrows df)%nat ->
  (0 < n_sim)%Z ->
  0 <= horizon ->
  let mu := spec_mean (spec_period_returns weights df) in
  let sig := spec_std (spec_period_returns weights df) in
  exists simulated,
    monte_carlo weights df n_sim horizon st =
      (Ok simulated, advance st (Z.to_nat n_sim)) /\
    length simulated = Z.to_nat n_sim /\
    forall i, (i < Z.to_nat n_sim)%nat ->
      nth i simulated NaN =
        Fin (AUM * exp (spec_log_return mu sig horizon (variate_from st i))).
Proof.
  intros Hshape HT Hn Hh mu sig.
  eexists. split; [|split].
  - apply monte_carlo_closed_form; (assumption || lia).
  - rewrite length_map, length_seq. reflexivity.
  - intros i Hi. rewrite nth_map_seq by exact Hi. reflexivity.
Qed.

Lemma monte_carlo_terminal_values_witness :
  exists simulated,
    fst (monte_carlo scenario_weights scenario_df 3 252 (mkRS tape 0)) =
      Ok simulated /\
    length simulated = 3%nat.
Proof.
  assert (HT : (2 <= nrows scenario_df)%nat) by (unfold nrows; simpl; lia).
  assert (Hn : (0 < 3)%Z) by lia.
  assert (Hh : 0 <= 252) by lra.
  destruct (monte_carlo_terminal_values scenario_weights scenario_df 3 252
              (mkRS tape 0) eq_refl HT Hn Hh) as [sim [H1 [H2 _]]].
  exists sim. rewrite H1. split; [reflexivity|exact H2].
Defined.

Lemma AUM_pos : 0 < AUM.
Proof. unfold AUM. lra. Qed.



(* ================================================================= *)
(** ** The optimizer *)

Lemma w0_equal_weights : w0 = repeat (Fin (1 / 10)) 10.
Proof.
  unfold w0, n_assets, TICKERS. cbn [length repeat map INR].
  float_eval. repeat (apply f_equal2; [apply f_equal; lra|]). reflexivity.
Qed.

(** The equal-weight vector meets the budget and the position limits. *)
Lemma w0_feasible : feasible w0.
Proof.
  rewrite w0_equal_weights. split.
  - exists 1. split.
    + unfold fsum. cbn [repeat fold_left fadd]. apply f_equal. lra.
    + replace (1 - 1) with 0 by ring. rewrite Rabs_R0. lra.
  - cbn [repeat].
    repeat constructor; (exists (1 / 10); split; [reflexivity|lra]).
Qed.

(** C5, as stated, fails: [optimize_portfolio] returns a bare weight
    vector.  A run whose solve failed and a run whose solve converged at the
    starting point return the same value, so no flag read off the result
    can tell whether the solve converged. *)
Lemma optimizer_result_has_no_flag :
  success (slsqp solver_failed one_mover_df) = false /\
  success (slsqp solver_converged_at_start one_mover_df) = true /\
  optimize_portfolio (Some solver_failed) no_inverse one_mover_df = Ok w0 /\
  optimize_portfolio (Some solver_converged_at_start) no_inverse one_mover_df
    = Ok w0 /\
  ~ exists converged : result (list float64) -> bool,
      forall minimize,
        converged (optimize_portfolio (Some minimize) no_inverse one_mover_df)
        = success (slsqp minimize one_mover_df).
Proof.
  repeat split; try reflexivity.
  intros [converged H].
  pose proof (H solver_failed) as Hf.
  pose proof (H solver_converged_at_start) as Hc.
  change (optimize_portfolio (Some solver_failed) no_inverse one_mover_df)
    with (Ok w0) in Hf.
  change (optimize_portfolio (Some solver_converged_at_start) no_inverse
                             one_mover_df)
    with (Ok w0) in Hc.
  change (success (slsqp solver_failed one_mover_df)) with false in Hf.
  change (success (slsqp solver_converged_at_start one_mover_df))
    with true in Hc.
  congruence.
Qed.

(** C5, amended: whenever the solve does not converge, [optimize_portfolio]
    raises nothing and itself returns the equal-weight starting vector
    (1/10 for each of the ten assets) in place of the solver's iterate; the
    result is a weight vector without a convergence flag. *)
Theorem optimizer_non_convergence (minimize : minimize_t)
    (np_linalg_inv : matrix -> result matrix) (df : DataFrame) :
  success (slsqp minimize df) = false ->
  optimize_portfolio (Some minimize) np_linalg_inv df = Ok w0 /\
  w0 = repeat (Fin (1 / 10)) 10.
Proof.
  intros H. split; [|apply w0_equal_weights].
  unfold optimize_portfolio. cbn [import]. rewrite H. reflexivity.
Qed.

Lemma optimizer_non_convergence_witness :
  optimize_portfolio (Some solver_failed) no_inverse one_mover_df = Ok w0.
Proof.
  apply (optimizer_non_convergence solver_failed no_inverse one_mover_df).
  reflexivity.
Defined.

Lemma one_mover_regularized_cov :
  broadcast_add (annual_cov one_mover_df) n_assets
                (scaled_eye n_assets (1 / 100000000))
  = Ok one_mover_regularized.
Proof.
  unfold annual_cov, df_cov, columns, column, one_mover_df, np_cov,
    scale_matrix, n_assets, TICKERS, scaled_eye, broadcast_add, TRADE_DAYS,
    one_mover_regularized, diagonal.
  cbn [ncols rows length Nat.eqb seq map nth hd Nat.sub repeat].
  float_eval. fin_lists.
Qed.

(** [one_mover_inverse] is the two-sided inverse of the regularized
    covariance: what [np.linalg.inv] returns on it. *)
Lemma one_mover_inverse_correct :
  mat_mul one_mover_regularized one_mover_inverse = identity 10 /\
  mat_mul one_mover_inverse one_mover_regularized = identity 10.
Proof.
  unfold mat_mul, vec_mat, one_mover_regularized, one_mover_inverse,
    identity, diagonal.
  cbn [length repeat seq map Nat.eqb nth hd].
  split; float_eval; fin_lists.
Qed.

Lemma one_mover_fallback (np_linalg_inv : matrix -> result matrix) :
  np_linalg_inv one_mover_regularized = Ok one_mover_inverse ->
  optimize_portfolio None np_linalg_inv one_mover_df = Ok one_mover_weights.
Proof.
  intros Hinv. unfold optimize_portfolio, import, min_variance_fallback.
  rewrite one_mover_regularized_cov. cbn [bind]. rewrite Hinv. cbn [bind].
  assert (E1 : mat_vec one_mover_inverse (repeat (Fin 1) n_assets) =
               map Fin (100000000 / 1260001 :: repeat 100000000 9)).
  { unfold mat_vec, one_mover_inverse, diagonal, n_assets, TICKERS.
    cbn [length repeat seq map Nat.eqb nth hd]. float_eval. fin_lists. }
  assert (E2 : fdot (vec_mat (repeat (Fin 1) n_assets) one_mover_inverse)
                    (repeat (Fin 1) n_assets) =
               Fin (1134001000000000 / 1260001)).
  { unfold vec_mat, one_mover_inverse, diagonal, n_assets, TICKERS.
    cbn [length repeat seq map Nat.eqb nth hd]. float_eval. fin_lists. }
  rewrite E1, E2.
  assert (E3 : map (fun e => fdiv e (Fin (1134001000000000 / 1260001)))
                   (map Fin (100000000 / 1260001 :: repeat 100000000 9)) =
               map Fin (1 / 11340010 :: repeat (1260001 / 11340010) 9)).
  { cbn [repeat map]. float_eval. fin_lists. }
  rewrite E3.
  assert (E4 : np_clip (2 / 100) (25 / 100)
                 (map Fin (1 / 11340010 :: repeat (1260001 / 11340010) 9)) =
               map Fin (2 / 100 :: repeat (1260001 / 11340010) 9)).
  { unfold np_clip, flt. cbn [repeat map]. float_eval. reflexivity. }
  rewrite E4.
  assert (E5 : fsum (map Fin (2 / 100 :: repeat (1260001 / 11340010) 9)) =
               Fin (28917023 / 28350025)).
  { cbn [repeat map]. float_eval. fin_lists. }
  rewrite E5.
  unfold one_mover_weights. cbn [repeat map]. float_eval. fin_lists.
Qed.

(** C1 fails on the branch without scipy: for ten assets of which only the
    first moves, the minimum-variance weights are clipped into [0.02, 0.25]
    and then renormalized, and the renormalization takes the first weight
    back under the 2% floor (about 1.96%).  The weights still sum to 1. *)
Theorem fallback_breaks_position_limits
    (np_linalg_inv : matrix -> result matrix) :
  np_linalg_inv one_mover_regularized = Ok one_mover_inverse ->
  optimize_portfolio None np_linalg_inv one_mover_df = Ok one_mover_weights /\
  fsum one_mover_weights = Fin 1 /\
  nth 0 one_mover_weights NaN = Fin (1134001 / 57834046) /\
  1134001 / 57834046 < 2 / 100 /\
  ~ feasible one_mover_weights.
Proof.
  intros Hinv.
  split; [apply one_mover_fallback; exact Hinv|].
  split; [unfold one_mover_weights; cbn [repeat map]; float_eval; fin_lists|].
  split; [reflexivity|].
  split; [lra|].
  intros [_ Hall]. unfold one_mover_weights in Hall. cbn [repeat map] in Hall.
  inversion Hall as [|e l [r [Hr Hb]] _]; subst.
  inversion Hr; subst. lra.
Qed.

Lemma fallback_breaks_position_limits_witness :
  optimize_portfolio None (fun _ => Ok one_mover_inverse) one_mover_df
    = Ok one_mover_weights /\
  ~ feasible one_mover_weights.
Proof.
  destruct (fallback_breaks_position_limits (fun _ => Ok one_mover_inverse)
              eq_refl) as [H1 [_ [_ [_ H2]]]].
  split; assumption.
Defined.

(** *** The budget on the minimum-variance branch *)

Lemma fsum_Fin (l : list R) : fsum (map Fin l) = Fin (sum l).
Proof.
  unfold fsum, sum. generalize 0.
  induction l as [|h t IH]; intros a; cbn [map fold_left fadd].
  - reflexivity.
  - apply IH.
Qed.

Lemma sum_map_div (s : R) (l : list R) :
  sum (map (fun v => v / s) l) = sum l / s.
Proof.
  induction l as [|h t IH]; cbn [map].
  - rewrite sum_nil. unfold Rdiv. ring.
  - rewrite !sum_cons, IH. unfold Rdiv. ring.
Qed.

Lemma sum_lower_bound (lo : R) (l : list R) :
  Forall (fun v => lo <= v) l -> INR (length l) * lo <= sum l.
Proof.
  induction 1 as [|h t Hh _ IH].
  - rewrite sum_nil. simpl. lra.
  - rewrite sum_cons. change (length (h :: t)) with (S (length t)).
    rewrite S_INR. lra.
Qed.

Lemma np_clip_Fin (lo hi : R) (l : list R) :
  lo <= hi ->
  exists c,
    np_clip lo hi (map Fin l) = map Fin c /\
    length c = length l /\
    Forall (fun v => lo <= v <= hi) c.
Proof.
  intros Hb. induction l as [|h t [c [Hc [Hlen Hall]]]].
  - exists []. repeat split. constructor.
  - unfold np_clip in *. cbn [map]. rewrite Hc. unfold flt.
    destruct (Rlt_dec h lo) as [H1|H1].
    + exists (lo :: c). repeat split; [simpl; lia|].
      constructor; [lra|assumption].
    + destruct (Rlt_dec hi h) as [H2|H2].
      * exists (hi :: c). repeat split; [simpl; lia|].
        constructor; [lra|assumption].
      * exists (h :: c). repeat split; [simpl; lia|].
        constructor; [lra|assumption].
Qed.

(** Clipping a non-empty vector of finite weights into the position limits
    and dividing by the sum gives weights that sum to exactly 1. *)
Lemma clip_renormalize_budget (l : list R) :
  l <> [] ->
  let w := np_clip (2 / 100) (25 / 100) (map Fin l) in
  fsum (map (fun e => fdiv e (fsum w)) w) = Fin 1.
Proof.
  intros Hne w.
  destruct (np_clip_Fin (2 / 100) (25 / 100) l) as [c [Hc [Hlen Hall]]];
    [lra|].
  unfold w. rewrite Hc, fsum_Fin.
  assert (Hpos : 0 < sum c).
  { assert (Hlo : Forall (fun v => 2 / 100 <= v) c)
      by (eapply Forall_impl; [|exact Hall]; intros a Ha; simpl in Ha; lra).
    pose proof (sum_lower_bound _ _ Hlo) as Hs.
    assert (0 < INR (length c)).
    { rewrite Hlen. apply INR_length_pos. exact Hne. }
    nra. }
  rewrite map_map.
  rewrite (map_ext _ (fun v => Fin (v / sum c)))
    by (intros v; apply fdiv_Fin; lra).
  rewrite <- (map_map (fun v => v / sum c) Fin), fsum_Fin, sum_map_div.
  apply f_equal. field. lra.
Qed.

(** On the solver branch the result is the solver's answer when it reports
    success and the equal-weight vector otherwise; it is feasible as soon as
    the solver's successful answers are. *)
Lemma solver_branch_feasible (minimize : minimize_t)
    (np_linalg_inv : matrix -> result matrix) (df : DataFrame) :
  (success (slsqp minimize df) = true -> feasible (x (slsqp minimize df))) ->
  exists w,
    optimize_portfolio (Some minimize) np_linalg_inv df = Ok w /\ feasible w.
Proof.
  intros H. unfold optimize_portfolio. cbn [import].
  destruct (success (slsqp minimize df)) eqn:Hs.
  - eexists. split; [reflexivity|]. apply H. reflexivity.
  - eexists. split; [reflexivity|]. apply w0_feasible.
Qed.

(* ================================================================= *)
(** ** The end-to-end scenario, by hand *)

Lemma scenario_returns :
  df_matmul scenario_df scenario_weights =
    Ok [3 / 200; - 1 / 200; 3 / 200; - 1 / 100].
Proof.
  unfold df_matmul, scenario_df, scenario_weights.
  cbn [ncols rows length Nat.eqb map].
  unfold dot, sum. cbn [combine map fst snd fold_left].
  apply f_equal. repeat (apply f_equal2; [lra|]). reflexivity.
Qed.

Lemma scenario_percentile :
  np_percentile
    (map (fun r => r * AUM) [3 / 200; - 1 / 200; 3 / 200; - 1 / 100])
    ((1 - CONF_LEVEL) * 100) = Ok (- 4925000).
Proof.
  unfold np_percentile, AUM, CONF_LEVEL.
  cbn [map length np_sort fold_right insert].
  decide_R. cbn [insert]. decide_R. cbn [insert]. decide_R.
  change (INR 4) with (1 + 1 + 1 + 1).
  replace (Zfloor _) with 0%Z by (symmetry; apply Zfloor_eq; simpl; lra).
  cbn [Z.to_nat Nat.add Nat.sub Nat.min nth INR].
  f_equal. lra.
Qed.

(** At 99% the historical VaR of the scenario is 4,925,000 (the 1st
    percentile interpolated between the two worst days) and the CVaR is the
    worst day, 5,000,000. *)
Example scenario_var :
  exists var_param,
    calculate_var (Some ppf_tails) scenario_weights scenario_df CONF_LEVEL =
      Ok (Fin 4925000, var_param, Fin 5000000).
Proof.
  destruct (calculate_var_closed_form ppf_tails scenario_weights scenario_df
              CONF_LEVEL _ _ scenario_returns scenario_percentile)
    as [_ [_ H]].
  eexists. rewrite H. f_equal. f_equal.
  - f_equal. f_equal. lra.
  - f_equal. unfold at_or_below, fle, AUM. cbn [map filter].
    decide_R. cbn [filter]. decide_R. cbn [filter]. decide_R.
    cbn [filter]. decide_R.
    unfold spec_mean. cbn [length big_sum nth INR]. field.
Qed.

(** The scenario's annualized return is 94.5% and its annualized variance
    is 0.043575. *)
Example scenario_metrics :
  exists sharpe,
    portfolio_metrics scenario_weights scenario_df =
      Ok (Fin (189 / 200), Fin (sqrt (1743 / 40000)), sharpe).
Proof.
  eexists.
  rewrite portfolio_metrics_closed_form
    by (reflexivity || (unfold nrows; simpl; lia)).
  assert (Hm : spec_mean (spec_period_returns scenario_weights scenario_df)
               = 3 / 800).
  { unfold spec_mean, spec_period_returns, spec_period_return, scenario_df,
      scenario_weights. cbn [rows map length big_sum nth INR]. field. }
  assert (Hs : spec_std (spec_period_returns scenario_weights scenario_df)
               = sqrt (83 / 480000)).
  { unfold spec_std. rewrite Hm.
    unfold spec_period_returns, spec_period_return, scenario_df,
      scenario_weights. cbn [rows map length big_sum nth INR].
    f_equal. field. }
  rewrite Hm, Hs. rewrite <- sqrt_mult by lra.
  replace (83 / 480000 * 252) with (1743 / 40000) by field.
  replace (3 / 800 * 252) with (189 / 200) by field.
  reflexivity.
Qed.

(* ================================================================= *)
(** ** Bounds and monotonicity of VaR and CVaR *)

Lemma scenario_one_period : (1 <= nrows scenario_df)%nat.
Proof. unfold nrows. simpl. lia. Qed.

Lemma scenario_two_periods : (2 <= nrows scenario_df)%nat.
Proof. unfold nrows. simpl. lia. Qed.

(** The last order statistic is the sample maximum. *)
Lemma np_sort_max (a : list R) :
  a <> [] ->
  In (nth (length a - 1) (np_sort a) 0) a /\
  forall v, In v a -> v <= nth (length a - 1) (np_sort a) 0.
Proof.
  intros Hne.
  assert (Hlen : (0 < length a)%nat) by (destruct a; [congruence|simpl; lia]).
  split.
  - eapply Permutation_in; [apply Permutation_sym, np_sort_perm|].
    apply nth_In. rewrite np_sort_length. lia.
  - intros v Hv.
    apply (Permutation_in _ (np_sort_perm a)) in Hv.
    destruct (In_nth _ _ 0 Hv) as [k [Hk Hnth]].
    rewrite <- Hnth. rewrite np_sort_length in Hk.
    apply sorted_nth_le; [apply np_sort_sorted|rewrite np_sort_length; lia].
Qed.

Lemma np_percentile_order_statistic (a : list R) (q : R) :
  a <> [] -> 0 <= q <= 100 ->
  np_percentile a q =
    Ok (order_statistic (np_sort a) ((INR (length a) - 1) * (q / 100))).
Proof.
  intros Hne Hq. unfold np_percentile, order_statistic.
  destruct (Rle_dec 0 (q / 100)) as [_|Hn]; [|exfalso; lra].
  destruct (Rle_dec (q / 100) 1) as [_|Hn]; [|exfalso; lra].
  destruct a as [|a0 a']; [congruence|].
  rewrite np_sort_length. reflexivity.
Qed.

Lemma floor_index (n : nat) (v : R) :
  (1 <= n)%nat -> 0 <= v <= INR n - 1 ->
  (Z.to_nat (Zfloor v) <= n - 1)%nat /\
  INR (Z.to_nat (Zfloor v)) <= v < INR (Z.to_nat (Zfloor v)) + 1.
Proof.
  intros Hn Hv.
  assert (Hf0 : (0 <= Zfloor v)%Z) by (apply Zfloor_lub; simpl; lra).
  assert (HfN : (Zfloor v <= Z.of_nat (n - 1))%Z).
  { rewrite <- (ZfloorZ (Z.of_nat (n - 1))). apply Zfloor_le.
    rewrite <- INR_IZR_INZ, minus_INR by lia. change (INR 1) with 1. lra. }
  split; [lia|].
  rewrite INR_IZR_INZ, Z2Nat.id by assumption. apply Zfloor_bound.
Qed.

Lemma order_statistic_between (s : list R) (v : R) :
  StronglySorted Rle s -> (1 <= length s)%nat ->
  0 <= v <= INR (length s) - 1 ->
  let i := Z.to_nat (Zfloor v) in
  nth i s 0 <= order_statistic s v <= nth (Nat.min (i + 1) (length s - 1)) s 0.
Proof.
  intros Hs Hn Hv i.
  destruct (floor_index (length s) v Hn Hv) as [Hi Hg]. fold i in Hi, Hg.
  assert (Hlohi : nth i s 0 <= nth (Nat.min (i + 1) (length s - 1)) s 0)
    by (apply sorted_nth_le; [assumption|lia]).
  unfold order_statistic. fold i. nra.
Qed.

Lemma order_statistic_monotone (s : list R) (v1 v2 : R) :
  StronglySorted Rle s -> (1 <= length s)%nat ->
  0 <= v1 -> v1 <= v2 -> v2 <= INR (length s) - 1 ->
  order_statistic s v1 <= order_statistic s v2.
Proof.
  intros Hs Hn H0 H12 H2.
  destruct (floor_index (length s) v1 Hn) as [Hi1 Hg1]; [lra|].
  destruct (floor_index (length s) v2 Hn) as [Hi2 Hg2]; [lra|].
  pose proof (order_statistic_between s v1 Hs Hn) as B1.
  pose proof (order_statistic_between s v2 Hs Hn) as B2.
  cbv zeta in B1, B2.
  specialize (B1 ltac:(lra)). specialize (B2 ltac:(lra)).
  set (i1 := Z.to_nat (Zfloor v1)) in *.
  set (i2 := Z.to_nat (Zfloor v2)) in *.
  assert (Hle : (i1 <= i2)%nat).
  { unfold i1, i2. apply Z2Nat.inj_le.
    - apply Zfloor_lub; simpl; lra.
    - apply Zfloor_lub; simpl; lra.
    - apply Zfloor_le; lra. }
  destruct (Nat.eq_dec i1 i2) as [E|NE].
  - unfold order_statistic. fold i1 i2. rewrite <- E in *.
    assert (Hlohi : nth i1 s 0 <= nth (Nat.min (i1 + 1) (length s - 1)) s 0)
      by (apply sorted_nth_le; [assumption|lia]).
    nra.
  - assert (Hmid : nth (Nat.min (i1 + 1) (length s - 1)) s 0 <= nth i2 s 0)
      by (apply sorted_nth_le; [assumption|lia]).
    lra.
Qed.

Lemma spec_mean_ge_bound (t : R) (xs : list R) :
  xs <> [] -> (forall v, In v xs -> t <= v) -> t <= spec_mean xs.
Proof.
  intros Hne H. rewrite spec_mean_sum.
  pose proof (INR_length_pos _ xs Hne) as Hpos.
  assert (Hs : INR (length xs) * t <= sum xs).
  { apply sum_lower_bound. apply Forall_forall. exact H. }
  apply Rmult_le_reg_r with (r := INR (length xs)); [assumption|].
  unfold Rdiv. rewrite Rmult_assoc, Rinv_l by lra. lra.
Qed.

Lemma port_dollar_nonempty (w : list R) (df : DataFrame) :
  (1 <= nrows df)%nat ->
  map (fun r => r * AUM) (spec_period_returns w df) <> [].
Proof.
  intros HT E. apply (f_equal (@length R)) in E.
  rewrite length_map, spec_period_returns_length in E. simpl in E. lia.
Qed.

(** X1: With scipy available, weights that match the frame's columns, at least
    one period and a confidence level in [0,1], [calculate_var] returns a
    finite historical VaR and a finite CVaR with [- best <= VaR <= CVaR <= -
    worst], where [worst] and [best] are the smallest and the largest
    one-period dollar result of the portfolio: neither figure exceeds the
    worst loss observed. *)
Theorem var_cvar_bounds (ppf : R -> float64) (weights : list R)
    (df : DataFrame) (confidence : R) :
  ncols df = length weights ->
  (1 <= nrows df)%nat ->
  0 <= confidence <= 1 ->
  let port_dollar :=
    map (fun r => r * AUM) (spec_period_returns weights df) in
  exists var_hist var_param cvar worst best,
    calculate_var (Some ppf) weights df confidence =
      Ok (Fin var_hist, var_param, Fin cvar) /\
    In worst port_dollar /\ In best port_dollar /\
    (forall v, In v port_dollar -> worst <= v <= best) /\
    - best <= var_hist /\ var_hist <= cvar /\ cvar <= - worst.
Proof.
  intros Hshape HT Hc port_dollar.
  pose proof (port_dollar_nonempty weights df HT) as Hne.
  fold port_dollar in Hne.
  assert (Hq : 0 <= (1 - confidence) * 100 <= 100) by lra.
  pose proof (np_percentile_order_statistic port_dollar _ Hne Hq) as Ht.
  set (t := order_statistic (np_sort port_dollar)
              ((INR (length port_dollar) - 1) * ((1 - confidence) * 100 / 100)))
    in Ht.
  destruct (calculate_var_closed_form ppf weights df confidence
              (spec_period_returns weights df) t
              (df_matmul_spec df weights Hshape) Ht) as [Htail [Hle Hcv]].
  fold port_dollar in Htail, Hle, Hcv.
  destruct (np_sort_min port_dollar Hne) as [Hmin_in Hmin].
  destruct (np_sort_max port_dollar Hne) as [Hmax_in Hmax].
  assert (Hn : (1 <= length (np_sort port_dollar))%nat).
  { rewrite np_sort_length. destruct port_dollar; [congruence|simpl; lia]. }
  assert (HnR : 1 <= INR (length port_dollar)).
  { change 1 with (INR 1). apply le_INR. rewrite <- np_sort_length. exact Hn. }
  assert (Hv : 0 <= (INR (length port_dollar) - 1)
                    * ((1 - confidence) * 100 / 100)
               <= INR (length (np_sort port_dollar)) - 1).
  { rewrite np_sort_length.
    replace ((1 - confidence) * 100 / 100) with (1 - confidence) by field.
    nra. }
  pose proof (order_statistic_between (np_sort port_dollar) _
                (np_sort_sorted port_dollar) Hn Hv) as Hb.
  cbv zeta in Hb. fold t in Hb.
  destruct (floor_index _ _ Hn Hv) as [Hi _].
  set (i := Z.to_nat (Zfloor ((INR (length port_dollar) - 1)
                               * ((1 - confidence) * 100 / 100)))) in *.
  assert (Hlo : nth 0 (np_sort port_dollar) 0 <= nth i (np_sort port_dollar) 0)
    by (apply sorted_nth_le; [apply np_sort_sorted|lia]).
  assert (Hhi : nth (Nat.min (i + 1) (length (np_sort port_dollar) - 1))
                    (np_sort port_dollar) 0
                <= nth (length port_dollar - 1) (np_sort port_dollar) 0).
  { apply sorted_nth_le; [apply np_sort_sorted|].
    rewrite np_sort_length in *. lia. }
  exists (- t). eexists.
  exists (- spec_mean (at_or_below t port_dollar)).
  exists (nth 0 (np_sort port_dollar) 0).
  exists (nth (length port_dollar - 1) (np_sort port_dollar) 0).
  split; [exact Hcv|]. split; [exact Hmin_in|]. split; [exact Hmax_in|].
  split; [intros v Hin; split; [apply Hmin|apply Hmax]; exact Hin|].
  pose proof (spec_mean_le_bound t _ Htail Hle) as Hm1.
  assert (Hm2 : nth 0 (np_sort port_dollar) 0
                <= spec_mean (at_or_below t port_dollar)).
  { apply spec_mean_ge_bound; [exact Htail|].
    intros v Hin. apply at_or_below_In in Hin. apply Hmin. tauto. }
  lra.
Qed.

Lemma var_cvar_bounds_witness :
  exists var_hist var_param cvar,
    calculate_var (Some ppf_tails) scenario_weights scenario_df (99 / 100)
      = Ok (Fin var_hist, var_param, Fin cvar) /\
    var_hist <= cvar.
Proof.
  assert (Hc : 0 <= 99 / 100 <= 1) by lra.
  destruct (var_cvar_bounds ppf_tails scenario_weights scenario_df (99 / 100)
              eq_refl scenario_one_period Hc)
    as [vh [vp [cv [worst [best [H [_ [_ [_ [_ [Hle _]]]]]]]]]]].
  exists vh, vp, cv. split; assumption.
Defined.

Lemma at_or_below_split (t2 t1 : R) (xs : list R) :
  t2 <= t1 ->
  sum (at_or_below t1 xs) =
    sum (at_or_below t2 xs) + sum (between t2 t1 xs) /\
  length (at_or_below t1 xs) =
    (length (at_or_below t2 xs) + length (between t2 t1 xs))%nat.
Proof.
  intros Ht. unfold at_or_below, between, fle.
  induction xs as [|h l [IHs IHl]]; cbn [filter].
  - rewrite sum_nil. split; [lra|reflexivity].
  - destruct (Rle_dec h t1) as [H1|H1], (Rle_dec h t2) as [H2|H2];
      cbn [negb andb]; rewrite ?sum_cons; cbn [length];
      try (exfalso; lra); split; try lra; lia.
Qed.

Lemma between_In (t2 t1 v : R) (xs : list R) :
  In v (between t2 t1 xs) -> t2 < v.
Proof.
  unfold between, fle. rewrite filter_In. intros [_ H].
  destruct (Rle_dec v t2); [discriminate|lra].
Qed.

(** Lowering the threshold lowers the mean of the tail. *)
Lemma tail_mean_monotone (t2 t1 : R) (xs : list R) :
  t2 <= t1 -> at_or_below t2 xs <> [] ->
  spec_mean (at_or_below t2 xs) <= spec_mean (at_or_below t1 xs).
Proof.
  intros Ht Hne.
  destruct (at_or_below_split t2 t1 xs Ht) as [Hs Hl].
  rewrite !spec_mean_sum, Hs, Hl, plus_INR.
  pose proof (INR_length_pos _ _ Hne) as Ha.
  pose proof (pos_INR (length (between t2 t1 xs))) as Hb.
  assert (HA : sum (at_or_below t2 xs)
               <= INR (length (at_or_below t2 xs)) * t2).
  { apply sum_le_bound. intros v Hv. apply at_or_below_In in Hv. tauto. }
  assert (HB : INR (length (between t2 t1 xs)) * t2
               <= sum (between t2 t1 xs)).
  { apply sum_lower_bound. apply Forall_forall. intros v Hv.
    apply between_In in Hv. lra. }
  set (A := sum (at_or_below t2 xs)) in *.
  set (B := sum (between t2 t1 xs)) in *.
  set (a := INR (length (at_or_below t2 xs))) in *.
  set (b := INR (length (between t2 t1 xs))) in *.
  apply Rmult_le_reg_r with (r := a * (a + b)); [nra|].
  replace (A / a * (a * (a + b))) with (A * (a + b)) by (field; lra).
  replace ((A + B) / (a + b) * (a * (a + b))) with ((A + B) * a)
    by (field; lra).
  nra.
Qed.

(** X2: on the same inputs, raising the confidence level never lowers the
    historical VaR nor the CVaR. *)
Theorem var_cvar_monotone_in_confidence (ppf : R -> float64)
    (weights : list R) (df : DataFrame) (c1 c2 : R) :
  ncols df = length weights ->
  (1 <= nrows df)%nat ->
  0 <= c1 -> c1 <= c2 -> c2 <= 1 ->
  exists var1 param1 cvar1 var2 param2 cvar2,
    calculate_var (Some ppf) weights df c1 =
      Ok (Fin var1, param1, Fin cvar1) /\
    calculate_var (Some ppf) weights df c2 =
      Ok (Fin var2, param2, Fin cvar2) /\
    var1 <= var2 /\ cvar1 <= cvar2.
Proof.
  intros Hshape HT H0 H12 H1.
  set (pd := map (fun r => r * AUM) (spec_period_returns weights df)).
  pose proof (port_dollar_nonempty weights df HT) as Hne. fold pd in Hne.
  assert (Hn : (1 <= length (np_sort pd))%nat).
  { rewrite np_sort_length. destruct pd; [congruence|simpl; lia]. }
  assert (HnR : 1 <= INR (length pd)).
  { change 1 with (INR 1). apply le_INR. rewrite <- np_sort_length. exact Hn. }
  pose proof (np_percentile_order_statistic pd ((1 - c1) * 100) Hne
                ltac:(lra)) as Ht1.
  pose proof (np_percentile_order_statistic pd ((1 - c2) * 100) Hne
                ltac:(lra)) as Ht2.
  set (t1 := order_statistic _ _) in Ht1.
  set (t2 := order_statistic _ _) in Ht2.
  assert (Ht : t2 <= t1).
  { unfold t1, t2. apply order_statistic_monotone.
    - apply np_sort_sorted.
    - exact Hn.
    - replace ((1 - c2) * 100 / 100) with (1 - c2) by field. nra.
    - replace ((1 - c2) * 100 / 100) with (1 - c2) by field.
      replace ((1 - c1) * 100 / 100) with (1 - c1) by field. nra.
    - rewrite np_sort_length.
      replace ((1 - c1) * 100 / 100) with (1 - c1) by field. nra. }
  destruct (calculate_var_closed_form ppf weights df c1 _ t1
              (df_matmul_spec df weights Hshape) Ht1) as [_ [_ Hcv1]].
  destruct (calculate_var_closed_form ppf weights df c2 _ t2
              (df_matmul_spec df weights Hshape) Ht2) as [Htail2 [_ Hcv2]].
  fold pd in Hcv1, Hcv2, Htail2.
  do 6 eexists. split; [exact Hcv1|]. split; [exact Hcv2|].
  split; [lra|].
  pose proof (tail_mean_monotone t2 t1 pd Ht Htail2). lra.
Qed.

Lemma var_cvar_monotone_in_confidence_witness :
  exists var1 param1 cvar1 var2 param2 cvar2,
    calculate_var (Some ppf_tails) scenario_weights scenario_df (9 / 10)
      = Ok (Fin var1, param1, Fin cvar1) /\
    calculate_var (Some ppf_tails) scenario_weights scenario_df (99 / 100)
      = Ok (Fin var2, param2, Fin cvar2) /\
    var1 <= var2 /\ cvar1 <= cvar2.
Proof.
  assert (H0 : 0 <= 9 / 10) by lra.
  assert (H1 : 9 / 10 <= 99 / 100) by lra.
  assert (H2 : 99 / 100 <= 1) by lra.
  exact (var_cvar_monotone_in_confidence ppf_tails scenario_weights
           scenario_df (9 / 10) (99 / 100) eq_refl scenario_one_period
           H0 H1 H2).
Defined.

(* ================================================================= *)
(** ** Leverage *)

Lemma nth_scale (k : R) (l : list R) (i : nat) :
  nth i (scale k l) 0 = k * nth i l 0.
Proof.
  unfold scale. rewrite <- (Rmult_0_r k) at 1. apply map_nth.
Qed.

Lemma big_sum_scale (k : R) (f : nat -> R) (n : nat) :
  big_sum (fun i => k * f i) n = k * big_sum f n.
Proof.
  induction n as [|n IH]; simpl.
  - ring.
  - rewrite IH. ring.
Qed.

Lemma sum_scale (k : R) (l : list R) : sum (scale k l) = k * sum l.
Proof.
  unfold scale. induction l as [|h t IH]; cbn [map].
  - rewrite sum_nil. ring.
  - rewrite !sum_cons, IH. ring.
Qed.

Lemma spec_period_returns_scale (k : R) (w : list R) (df : DataFrame) :
  spec_period_returns (scale k w) df = scale k (spec_period_returns w df).
Proof.
  unfold spec_period_returns, scale at 2. rewrite map_map.
  apply map_ext. intros row. unfold spec_period_return.
  unfold scale at 2. rewrite length_map.
  rewrite <- big_sum_scale. apply big_sum_ext. intros j _.
  rewrite nth_scale. ring.
Qed.

Lemma spec_mean_scale (k : R) (l : list R) :
  spec_mean (scale k l) = k * spec_mean l.
Proof.
  rewrite !spec_mean_sum, sum_scale. unfold scale. rewrite length_map.
  unfold Rdiv. ring.
Qed.

Lemma spec_std_scale (k : R) (l : list R) :
  0 <= k -> (2 <= length l)%nat ->
  spec_std (scale k l) = k * spec_std l.
Proof.
  intros Hk Hl. unfold spec_std. rewrite spec_mean_scale.
  assert (El : length (scale k l) = length l)
    by (unfold scale; apply length_map).
  rewrite !El.
  rewrite (big_sum_ext _ (fun t => (k * k) * (nth t l 0 - spec_mean l) ^ 2))
    by (intros i _; rewrite nth_scale; ring).
  rewrite big_sum_scale.
  replace (k * k * big_sum (fun t => (nth t l 0 - spec_mean l) ^ 2) (length l)
           / (INR (length l) - 1))
    with (k * k * (big_sum (fun t => (nth t l 0 - spec_mean l) ^ 2) (length l)
                   / (INR (length l) - 1)))
    by (unfold Rdiv; ring).
  rewrite sqrt_mult; [|nra|apply sample_variance_nonneg; assumption].
  rewrite sqrt_square by assumption. reflexivity.
Qed.

(** X8: scaling every weight by [k >= 0] scales the annualized return and the
    annualized volatility of [portfolio_metrics] by [k] (two or more periods,
    matching shapes). *)
Theorem portfolio_metrics_leverage (k : R) (weights : list R)
    (df : DataFrame) :
  0 <= k ->
  ncols df = length weights ->
  (2 <= nrows df)%nat ->
  exists ann_return ann_vol sharpe sharpe',
    portfolio_metrics weights df = Ok (Fin ann_return, Fin ann_vol, sharpe) /\
    portfolio_metrics (scale k weights) df =
      Ok (Fin (k * ann_return), Fin (k * ann_vol), sharpe').
Proof.
  intros Hk Hshape HT.
  do 4 eexists. split.
  - apply portfolio_metrics_closed_form; assumption.
  - rewrite portfolio_metrics_closed_form;
      [|unfold scale; rewrite length_map; assumption|assumption].
    rewrite spec_period_returns_scale, spec_mean_scale, spec_std_scale;
      [|assumption|rewrite spec_period_returns_length; assumption].
    f_equal. f_equal. f_equal.
    + f_equal. ring.
    + f_equal. ring.
Qed.

Lemma portfolio_metrics_leverage_witness :
  exists ann_return ann_vol sharpe sharpe',
    portfolio_metrics scenario_weights scenario_df
      = Ok (Fin ann_return, Fin ann_vol, sharpe) /\
    portfolio_metrics (scale 2 scenario_weights) scenario_df
      = Ok (Fin (2 * ann_return), Fin (2 * ann_vol), sharpe').
Proof.
  assert (Hk : 0 <= 2) by lra.
  exact (portfolio_metrics_leverage 2 scenario_weights scenario_df Hk
           eq_refl scenario_two_periods).
Defined.

(* ================================================================= *)
(** ** Positive homogeneity of the risk figures *)

Lemma fscale_neg (k : R) (a : float64) :
  0 < k -> fmul (Fin k) (fneg a) = fneg (fmul (Fin k) a).
Proof.
  intros Hk. destruct a; cbn [fneg fmul].
  - f_equal. ring.
  - sign_cases.
  - sign_cases.
  - reflexivity.
Qed.

Lemma fscale_add (k : R) (a b : float64) :
  0 < k ->
  fmul (Fin k) (fadd a b) = fadd (fmul (Fin k) a) (fmul (Fin k) b).
Proof.
  intros Hk. destruct a, b; cbn [fadd fmul fneg];
    try (f_equal; ring); try reflexivity; sign_cases.
Qed.

Lemma fscale_mul (k : R) (p s : float64) :
  0 < k -> fmul p (fmul (Fin k) s) = fmul (Fin k) (fmul p s).
Proof.
  intros Hk. destruct p, s; cbn [fadd fmul fneg];
    try (f_equal; ring); try reflexivity; sign_cases.
Qed.

Lemma insert_scale (k v : R) (l : list R) :
  0 < k -> insert (k * v) (scale k l) = scale k (insert v l).
Proof.
  intros Hk. unfold scale. induction l as [|h t IH]; cbn [map insert].
  - reflexivity.
  - destruct (Rle_dec (k * v) (k * h)) as [H1|H1],
             (Rle_dec v h) as [H2|H2]; cbn [map].
    + reflexivity.
    + exfalso. nra.
    + exfalso. nra.
    + rewrite IH. reflexivity.
Qed.

Lemma np_sort_scale (k : R) (l : list R) :
  0 < k -> np_sort (scale k l) = scale k (np_sort l).
Proof.
  intros Hk. induction l as [|h t IH].
  - reflexivity.
  - change (np_sort (scale k (h :: t)))
      with (insert (k * h) (np_sort (scale k t))).
    rewrite IH. apply insert_scale. exact Hk.
Qed.

Lemma scale_length (k : R) (l : list R) : length (scale k l) = length l.
Proof. apply length_map. Qed.

Lemma order_statistic_scale (k : R) (s : list R) (v : R) :
  order_statistic (scale k s) v = k * order_statistic s v.
Proof.
  unfold order_statistic. rewrite scale_length, !nth_scale. ring.
Qed.

Lemma at_or_below_scale (k t : R) (l : list R) :
  0 < k -> at_or_below (k * t) (scale k l) = scale k (at_or_below t l).
Proof.
  intros Hk. unfold at_or_below, scale, fle.
  induction l as [|h r IH]; cbn [map filter].
  - reflexivity.
  - destruct (Rle_dec (k * h) (k * t)) as [H1|H1],
             (Rle_dec h t) as [H2|H2]; cbn [map].
    + rewrite IH. reflexivity.
    + exfalso. nra.
    + exfalso. nra.
    + exact IH.
Qed.

Lemma port_dollar_scale (k : R) (r : list R) :
  map (fun v => v * AUM) (scale k r) = scale k (map (fun v => v * AUM) r).
Proof.
  unfold scale. rewrite !map_map. apply map_ext. intros v. ring.
Qed.

Lemma mean_scale (k : R) (l : list R) :
  mean (scale k l) = fmul (Fin k) (mean l).
Proof.
  destruct l as [|h t].
  - unfold mean, scale. cbn [map length INR]. rewrite sum_nil.
    unfold fdiv. destruct (Req_dec_T 0 0); [|congruence].
    unfold inf_of_sign. destruct (total_order_T 0 0) as [[?|?]|?];
      try (exfalso; lra). reflexivity.
  - rewrite !mean_Fin; [|discriminate|unfold scale; discriminate].
    cbn [fmul]. rewrite spec_mean_scale. reflexivity.
Qed.

Lemma std_scale (k : R) (l : list R) :
  0 <= k -> std (scale k l) = fmul (Fin k) (std l).
Proof.
  intros Hk. destruct (le_lt_dec 2 (length l)) as [H2|H1].
  - rewrite !std_Fin; [|assumption|rewrite scale_length; assumption].
    cbn [fmul]. rewrite spec_std_scale by assumption. reflexivity.
  - unfold std, var. rewrite scale_length.
    destruct (Nat.leb_spec (length l) 1) as [_|H]; [|lia]. reflexivity.
Qed.

(** X3: scaling every weight by [k > 0] scales the historical VaR, the
    parametric VaR and the CVaR of [calculate_var] by [k]. *)
Theorem calculate_var_homogeneous (ppf : R -> float64) (k : R)
    (weights : list R) (df : DataFrame) (confidence : R) :
  0 < k ->
  ncols df = length weights ->
  (1 <= nrows df)%nat ->
  0 <= confidence <= 1 ->
  exists var_hist var_param cvar,
    calculate_var (Some ppf) weights df confidence =
      Ok (Fin var_hist, var_param, Fin cvar) /\
    calculate_var (Some ppf) (scale k weights) df confidence =
      Ok (Fin (k * var_hist), fmul (Fin k) var_param, Fin (k * cvar)).
Proof.
  intros Hk Hshape HT Hc.
  set (pd := map (fun r => r * AUM) (spec_period_returns weights df)).
  pose proof (port_dollar_nonempty weights df HT) as Hne. fold pd in Hne.
  assert (Hq : 0 <= (1 - confidence) * 100 <= 100) by lra.
  pose proof (np_percentile_order_statistic pd _ Hne Hq) as Ht.
  set (t := order_statistic _ _) in Ht.
  assert (Hshape' : ncols df = length (scale k weights))
    by (rewrite scale_length; exact Hshape).
  assert (Hpd' : map (fun r => r * AUM)
                     (spec_period_returns (scale k weights) df)
                 = scale k pd).
  { rewrite spec_period_returns_scale. apply port_dollar_scale. }
  assert (Ht' : np_percentile
                  (map (fun r => r * AUM)
                       (spec_period_returns (scale k weights) df))
                  ((1 - confidence) * 100) = Ok (k * t)).
  { rewrite Hpd'. rewrite np_percentile_order_statistic;
      [|unfold scale; destruct pd; [congruence|discriminate]|exact Hq].
    rewrite np_sort_scale by exact Hk.
    rewrite order_statistic_scale, scale_length. reflexivity. }
  destruct (calculate_var_closed_form ppf weights df confidence _ t
              (df_matmul_spec df weights Hshape) Ht) as [_ [_ H1]].
  destruct (calculate_var_closed_form ppf (scale k weights) df confidence
              _ (k * t) (df_matmul_spec df _ Hshape') Ht') as [_ [_ H2]].
  fold pd in H1. rewrite Hpd' in H2.
  do 3 eexists. split; [exact H1|].
  rewrite H2. f_equal. f_equal; [f_equal|].
  - f_equal. ring.
  - rewrite mean_scale, std_scale by lra.
    rewrite fscale_mul, <- fscale_add, <- fscale_neg by exact Hk.
    reflexivity.
  - f_equal. rewrite at_or_below_scale by exact Hk.
    rewrite spec_mean_scale. ring.
Qed.

Lemma calculate_var_homogeneous_witness :
  exists var_hist var_param cvar,
    calculate_var (Some ppf_tails) scenario_weights scenario_df (99 / 100)
      = Ok (Fin var_hist, var_param, Fin cvar) /\
    calculate_var (Some ppf_tails) (scale 2 scenario_weights) scenario_df
                  (99 / 100)
      = Ok (Fin (2 * var_hist), fmul (Fin 2) var_param, Fin (2 * cvar)).
Proof.
  assert (Hk : 0 < 2) by lra.
  assert (Hc : 0 <= 99 / 100 <= 1) by lra.
  exact (calculate_var_homogeneous ppf_tails 2 scenario_weights scenario_df
           (99 / 100) Hk eq_refl scenario_one_period Hc).
Defined.

(* ================================================================= *)
(** ** Failure modes of the risk metrics *)

Lemma calculate_var_no_scipy_fails (weights : list R) (df : DataFrame)
    (confidence : R) (r : float64 * float64 * float64) :
  calculate_var None weights df confidence <> Ok r.
Proof.
  unfold calculate_var.
  destruct (df_matmul df weights) as [pr|e]; cbn [bind]; [|discriminate].
  destruct (np_percentile _ _) as [t|e]; cbn [bind import]; discriminate.
Qed.

Lemma calculate_var_no_scipy_import_error (weights : list R)
    (df : DataFrame) (confidence : R) :
  ncols df = length weights -> (1 <= nrows df)%nat ->
  0 <= confidence <= 1 ->
  calculate_var None weights df confidence = Raise ImportError.
Proof.
  intros Hshape HT Hc. unfold calculate_var.
  rewrite df_matmul_spec by assumption. cbn [bind].
  rewrite np_percentile_order_statistic;
    [|apply port_dollar_nonempty; assumption|lra].
  reflexivity.
Qed.

(** X4: without scipy [calculate_var] never returns a value, whatever its
    arguments; on well-formed input (matching shapes, at least one period,
    confidence in [0,1]) the exception is [ImportError]. *)
Theorem calculate_var_needs_scipy (weights : list R) (df : DataFrame)
    (confidence : R) :
  (forall r, calculate_var None weights df confidence <> Ok r) /\
  (ncols df = length weights -> (1 <= nrows df)%nat ->
   0 <= confidence <= 1 ->
   calculate_var None weights df confidence = Raise ImportError).
Proof.
  split.
  - intros r. apply calculate_var_no_scipy_fails.
  - apply calculate_var_no_scipy_import_error.
Qed.

Lemma calculate_var_needs_scipy_witness :
  calculate_var None scenario_weights scenario_df (99 / 100)
    = Raise ImportError.
Proof.
  assert (Hc : 0 <= 99 / 100 <= 1) by lra.
  exact (proj2 (calculate_var_needs_scipy scenario_weights scenario_df
                  (99 / 100)) eq_refl scenario_one_period Hc).
Defined.

Lemma df_matmul_mismatch (df : DataFrame) (w : list R) :
  ncols df <> length w -> df_matmul df w = Raise ValueError.
Proof.
  intros H. unfold df_matmul.
  destruct (Nat.eqb_spec (ncols df) (length w)); [contradiction|reflexivity].
Qed.

(** X5: when the number of weights differs from the number of columns,
    [portfolio_metrics], [calculate_var], [calculate_beta] and [monte_carlo]
    all raise [ValueError]. [calculate_beta] has by then drawn one variate per
    period from the global generator; [monte_carlo] has drawn none. *)
Theorem shape_mismatch_raises (scipy_stats : option (R -> float64))
    (weights : list R) (df : DataFrame) (confidence horizon : R)
    (n_sim : Z) (st : RandomState) :
  ncols df <> length weights ->
  portfolio_metrics weights df = Raise ValueError /\
  calculate_var scipy_stats weights df confidence = Raise ValueError /\
  calculate_beta weights df st =
    (Raise ValueError, advance st (nrows df)) /\
  monte_carlo weights df n_sim horizon st = (Raise ValueError, st).
Proof.
  intros H. pose proof (df_matmul_mismatch df weights H) as E.
  repeat split.
  - unfold portfolio_metrics. rewrite E. reflexivity.
  - unfold calculate_var. rewrite E. reflexivity.
  - rewrite calculate_beta_closed_form. cbv zeta. rewrite E. reflexivity.
  - unfold monte_carlo. rewrite E. reflexivity.
Qed.

Lemma shape_mismatch_raises_witness :
  calculate_beta [1] scenario_df (mkRS tape 0)
    = (Raise ValueError, advance (mkRS tape 0) (nrows scenario_df)) /\
  monte_carlo [1] scenario_df 3 252 (mkRS tape 0)
    = (Raise ValueError, mkRS tape 0).
Proof.
  assert (H : ncols scenario_df <> length [1]) by (simpl; lia).
  destruct (shape_mismatch_raises None [1] scenario_df (99 / 100) 252 3
              (mkRS tape 0) H) as [_ [_ [Hb Hm]]].
  split; assumption.
Defined.

(** X6: with fewer than two periods [portfolio_metrics] raises nothing:
    volatility and Sharpe ratio are NaN; the annualized return is NaN on an
    empty frame and 252 times the single portfolio return on a one-row frame. *)
Theorem portfolio_metrics_short_series (weights : list R) (df : DataFrame) :
  ncols df = length weights ->
  (nrows df <= 1)%nat ->
  exists ann_return,
    portfolio_metrics weights df = Ok (ann_return, NaN, NaN) /\
    (nrows df = 0%nat -> ann_return = NaN) /\
    (nrows df = 1%nat ->
     ann_return =
       Fin (spec_mean (spec_period_returns weights df) * 252)).
Proof.
  intros Hshape HT.
  pose proof (spec_period_returns_length weights df) as Hlen.
  unfold portfolio_metrics. rewrite df_matmul_spec by assumption.
  cbn [bind].
  assert (Hstd : std (spec_period_returns weights df) = NaN).
  { unfold std, var. rewrite Hlen.
    destruct (Nat.leb_spec (nrows df) 1); [reflexivity|lia]. }
  rewrite Hstd. cbn [fmul].
  eexists. split.
  - f_equal. f_equal.
    destruct (fsub _ _); reflexivity.
  - split.
    + intros H0. rewrite H0 in Hlen.
      destruct (spec_period_returns weights df); [|discriminate].
      unfold mean. cbn [length INR]. rewrite sum_nil. unfold fdiv.
      destruct (Req_dec_T 0 0); [|congruence].
      unfold inf_of_sign.
      destruct (total_order_T 0 0) as [[?|?]|?]; try (exfalso; lra).
      reflexivity.
    + intros H1. rewrite mean_Fin.
      * reflexivity.
      * intros E. rewrite E in Hlen. simpl in Hlen. lia.
Qed.

Lemma portfolio_metrics_short_series_witness :
  exists ann_return,
    portfolio_metrics [1] single_period_df = Ok (ann_return, NaN, NaN).
Proof.
  assert (HT : (nrows single_period_df <= 1)%nat)
    by (unfold nrows; simpl; lia).
  destruct (portfolio_metrics_short_series [1] single_period_df eq_refl HT)
    as [ar [H _]].
  exists ar. exact H.
Defined.

(* ================================================================= *)
(** ** When the Sharpe ratio is finite *)

Lemma big_sum_nonneg (f : nat -> R) (n : nat) :
  (forall i, (i < n)%nat -> 0 <= f i) -> 0 <= big_sum f n.
Proof.
  induction n as [|n IH]; intros H; simpl.
  - lra.
  - assert (0 <= big_sum f n) by (apply IH; intros; apply H; lia).
    assert (0 <= f n) by (apply H; lia). lra.
Qed.

Lemma big_sum_zero_terms (f : nat -> R) (n : nat) :
  (forall i, (i < n)%nat -> 0 <= f i) -> big_sum f n = 0 ->
  forall i, (i < n)%nat -> f i = 0.
Proof.
  induction n as [|n IH]; intros Hpos Hsum i Hi.
  - lia.
  - simpl in Hsum.
    assert (H1 : 0 <= big_sum f n)
      by (apply big_sum_nonneg; intros; apply Hpos; lia).
    assert (H2 : 0 <= f n) by (apply Hpos; lia).
    destruct (Nat.eq_dec i n) as [->|Hne]; [lra|].
    apply IH; [intros; apply Hpos; lia|lra|lia].
Qed.

(** The sample deviation of a series of two or more values is zero exactly
    when the series is constant. *)
Lemma spec_std_zero_iff (xs : list R) :
  (2 <= length xs)%nat ->
  (spec_std xs = 0 <-> exists c, forall v, In v xs -> v = c).
Proof.
  intros Hl.
  assert (Hn : 1 <= INR (length xs) - 1).
  { apply le_INR in Hl. change (INR 2) with 2 in Hl. lra. }
  split.
  - intros H0. exists (spec_mean xs). intros v Hv.
    unfold spec_std in H0.
    apply sqrt_eq_0 in H0; [|apply sample_variance_nonneg; assumption].
    assert (Hsum : big_sum (fun t => (nth t xs 0 - spec_mean xs) ^ 2)
                           (length xs) = 0).
    { apply Rmult_eq_reg_r with (r := / (INR (length xs) - 1)).
      - rewrite Rmult_0_l. exact H0.
      - apply Rinv_neq_0_compat. lra. }
    destruct (In_nth _ _ 0 Hv) as [i [Hi Hnth]].
    pose proof (big_sum_zero_terms _ _
                  (fun j _ => pow2_ge_0 (nth j xs 0 - spec_mean xs))
                  Hsum i Hi) as Hz.
    cbv beta in Hz. rewrite Hnth in Hz.
    assert ((v - spec_mean xs) = 0) by nra. lra.
  - intros [c Hc].
    assert (Hnth : forall i, (i < length xs)%nat -> nth i xs 0 = c)
      by (intros i Hi; apply Hc, nth_In, Hi).
    assert (Hm : spec_mean xs = c).
    { unfold spec_mean.
      rewrite (big_sum_ext _ (fun _ => c * 1))
        by (intros; rewrite Hnth by assumption; ring).
      rewrite big_sum_scale.
      assert (E : big_sum (fun _ => 1) (length xs) = INR (length xs)).
      { clear. induction (length xs) as [|n IH].
        - reflexivity.
        - rewrite S_INR. simpl. rewrite IH. reflexivity. }
      rewrite E. field. lra. }
    unfold spec_std. rewrite Hm.
    rewrite (big_sum_zero _ (length xs))
      by (intros i Hi; rewrite Hnth by assumption; ring).
    unfold Rdiv. rewrite Rmult_0_l. apply sqrt_0.
Qed.



(* ================================================================= *)
(** ** Monte Carlo: edge cases and composition *)

Lemma std_cases (xs : list R) :
  std xs = NaN \/ exists s, std xs = Fin s /\ 0 <= s.
Proof.
  destruct (le_lt_dec 2 (length xs)) as [H|H].
  - right. eexists. split; [apply std_Fin; assumption|apply spec_std_nonneg].
  - left. unfold std, var.
    destruct (Nat.leb_spec (length xs) 1); [reflexivity|lia].
Qed.

(** The scale is a standard deviation times a square root: never negative,
    so the generator never rejects it. *)
Lemma mc_scale_not_negative (pr : list R) (horizon : R) :
  flt (mc_scale pr horizon) (Fin 0) = false.
Proof.
  unfold mc_scale.
  destruct (std_cases pr) as [->|[s [-> Hs]]]; [reflexivity|].
  unfold fsqrt. destruct (Rlt_dec horizon 0); [reflexivity|].
  cbn [fmul flt]. pose proof (sqrt_pos horizon).
  destruct (Rlt_dec (s * sqrt horizon) 0); [exfalso; nra|reflexivity].
Qed.

Lemma monte_carlo_draws (weights : list R) (df : DataFrame)
    (n_sim : Z) (horizon : R) (st : RandomState) :
  ncols df = length weights ->
  (0 <= n_sim)%Z ->
  let pr := spec_period_returns weights df in
  monte_carlo weights df n_sim horizon st =
    (Ok (map (fun i =>
                fmul (Fin AUM)
                     (fexp (fadd (mc_loc pr horizon)
                                 (fmul (mc_scale pr horizon)
                                       (Fin (variate_from st i))))))
             (seq 0 (Z.to_nat n_sim))),
     advance st (Z.to_nat n_sim)).
Proof.
  intros Hshape Hn pr. unfold monte_carlo.
  rewrite df_matmul_spec by assumption. fold pr.
  fold (mc_loc pr horizon). fold (mc_scale pr horizon).
  unfold np_random_normal.
  destruct (Z.ltb_spec n_sim 0) as [Hneg|_]; [lia|].
  rewrite mc_scale_not_negative, gauss_n_spec.
  cbn [bind]. rewrite !map_map. reflexivity.
Qed.

(** X12: [monte_carlo] with [n_sim = 0] returns the empty array and leaves the
    generator untouched; with [n_sim < 0] it raises [ValueError]. *)
Theorem monte_carlo_trial_count_edges (weights : list R) (df : DataFrame)
    (n_sim : Z) (horizon : R) (st : RandomState) :
  ncols df = length weights ->
  (n_sim = 0%Z -> monte_carlo weights df n_sim horizon st = (Ok [], st)) /\
  ((n_sim < 0)%Z ->
   monte_carlo weights df n_sim horizon st = (Raise ValueError, st)).
Proof.
  intros Hshape. split.
  - intros ->. rewrite monte_carlo_draws by (assumption || lia).
    cbn [Z.to_nat seq map]. unfold advance. rewrite Nat.add_0_r.
    destruct st; reflexivity.
  - intros Hneg. unfold monte_carlo.
    rewrite df_matmul_spec by assumption. unfold np_random_normal.
    destruct (Z.ltb_spec n_sim 0) as [_|H]; [reflexivity|lia].
Qed.

Lemma monte_carlo_trial_count_edges_witness :
  monte_carlo scenario_weights scenario_df 0 252 (mkRS tape 0)
    = (Ok [], mkRS tape 0) /\
  monte_carlo scenario_weights scenario_df (- 1) 252 (mkRS tape 0)
    = (Raise ValueError, mkRS tape 0).
Proof.
  split.
  - apply (proj1 (monte_carlo_trial_count_edges scenario_weights scenario_df
                    0 252 (mkRS tape 0) eq_refl)). reflexivity.
  - apply (proj2 (monte_carlo_trial_count_edges scenario_weights scenario_df
                    (- 1) 252 (mkRS tape 0) eq_refl)). lia.
Defined.

Lemma map_const_repeat (A B : Type) (b : B) (l : list A) :
  map (fun _ => b) l = repeat b (length l).
Proof. induction l; simpl; congruence. Qed.

(** X13: with fewer than two periods of history, or with a negative horizon,
    [monte_carlo] raises nothing: every simulated terminal value is NaN and
    the generator still advances by [n_sim]. *)
Theorem monte_carlo_undefined_inputs (weights : list R) (df : DataFrame)
    (n_sim : Z) (horizon : R) (st : RandomState) :
  ncols df = length weights ->
  (0 <= n_sim)%Z ->
  (nrows df <= 1)%nat \/ horizon < 0 ->
  monte_carlo weights df n_sim horizon st =
    (Ok (repeat NaN (Z.to_nat n_sim)), advance st (Z.to_nat n_sim)).
Proof.
  intros Hshape Hn Hbad.
  rewrite monte_carlo_draws by assumption. cbv zeta.
  set (pr := spec_period_returns weights df).
  assert (Hnan : forall z, fadd (mc_loc pr horizon)
                                (fmul (mc_scale pr horizon) (Fin z)) = NaN).
  { intros z. destruct Hbad as [HT|Hh].
    - assert (Hstd : std pr = NaN).
      { unfold std, var, pr. rewrite spec_period_returns_length.
        destruct (Nat.leb_spec (nrows df) 1); [reflexivity|lia]. }
      unfold mc_loc, mc_scale. rewrite Hstd. cbn [fmul fneg fsub fadd].
      destruct (mean pr); reflexivity.
    - assert (Hs : mc_scale pr horizon = NaN).
      { unfold mc_scale, fsqrt.
        destruct (Rlt_dec horizon 0); [|exfalso; lra].
        destruct (std pr); reflexivity. }
      rewrite Hs. cbn [fmul]. destruct (mc_loc pr horizon); reflexivity. }
  f_equal. f_equal.
  rewrite (map_ext _ (fun _ => NaN))
    by (intros i; rewrite Hnan; reflexivity).
  rewrite map_const_repeat, length_seq. reflexivity.
Qed.

Lemma monte_carlo_undefined_inputs_witness :
  monte_carlo [1] single_period_df 3 252 (mkRS tape 0)
    = (Ok (repeat NaN (Z.to_nat 3)), advance (mkRS tape 0) (Z.to_nat 3)).
Proof.
  assert (Hn : (0 <= 3)%Z) by lia.
  assert (Hbad : (nrows single_period_df <= 1)%nat \/ 252 < 0)
    by (left; unfold nrows; simpl; lia).
  exact (monte_carlo_undefined_inputs [1] single_period_df 3 252
           (mkRS tape 0) eq_refl Hn Hbad).
Defined.

(** X14: when the portfolio's period returns have zero sample deviation, every
    trial of [monte_carlo] ends at the same value, [AUM * exp (mean *
    horizon)]. *)
Theorem monte_carlo_zero_volatility (weights : list R) (df : DataFrame)
    (n_sim : Z) (horizon : R) (st : RandomState) :
  ncols df = length weights ->
  (2 <= nrows df)%nat ->
  (0 <= n_sim)%Z ->
  0 <= horizon ->
  spec_std (spec_period_returns weights df) = 0 ->
  monte_carlo weights df n_sim horizon st =
    (Ok (repeat
           (Fin (AUM * exp (spec_mean (spec_period_returns weights df)
                            * horizon)))
           (Z.to_nat n_sim)),
     advance st (Z.to_nat n_sim)).
Proof.
  intros Hshape HT Hn Hh Hstd.
  rewrite monte_carlo_closed_form by assumption.
  f_equal. f_equal. rewrite Hstd.
  rewrite (map_ext _ (fun _ =>
             Fin (AUM * exp (spec_mean (spec_period_returns weights df)
                             * horizon)))).
  - rewrite map_const_repeat, length_seq. reflexivity.
  - intros i. do 3 f_equal. unfold spec_log_return. ring.
Qed.

Lemma flat_df_std : spec_std (spec_period_returns [1] flat_df) = 0.
Proof.
  apply spec_std_zero_iff.
  - rewrite spec_period_returns_length. unfold nrows. simpl. lia.
  - exists (0 + 1 * (1 / 100)). intros v Hv.
    unfold spec_period_returns, spec_period_return, flat_df in Hv.
    cbn [rows map length big_sum nth] in Hv.
    destruct Hv as [<-|[<-|[]]]; reflexivity.
Qed.

Lemma monte_carlo_zero_volatility_witness :
  monte_carlo [1] flat_df 3 252 (mkRS tape 0)
    = (Ok (repeat (Fin (AUM * exp (spec_mean (spec_period_returns [1] flat_df)
                                   * 252)))
                  (Z.to_nat 3)),
       advance (mkRS tape 0) (Z.to_nat 3)).
Proof.
  assert (HT : (2 <= nrows flat_df)%nat) by (unfold nrows; simpl; lia).
  assert (Hn : (0 <= 3)%Z) by lia.
  assert (Hh : 0 <= 252) by lra.
  exact (monte_carlo_zero_volatility [1] flat_df 3 252 (mkRS tape 0)
           eq_refl HT Hn Hh flat_df_std).
Defined.

Lemma map_seq_from (A : Type) (f : nat -> A) (n m : nat) :
  map f (seq n m) = map (fun i => f (n + i)%nat) (seq 0 m).
Proof.
  revert n. induction m as [|m IH]; intros n.
  - reflexivity.
  - cbn [seq map]. rewrite Nat.add_0_r. f_equal.
    rewrite IH, <- seq_shift, map_map.
    apply map_ext. intros i. f_equal. lia.
Qed.

Lemma variate_from_advance (st : RandomState) (n i : nat) :
  variate_from (advance st n) i = variate_from st (n + i).
Proof.
  unfold variate_from, advance. cbn [variates cursor]. f_equal. lia.
Qed.

Lemma advance_advance (st : RandomState) (n m : nat) :
  advance (advance st n) m = advance st (n + m).
Proof.
  unfold advance. cbn [variates cursor]. f_equal. lia.
Qed.

(** X15: [n] trials followed by [m] trials from the generator state the first
    call leaves give the same terminal values as [n + m] trials in one call,
    and leave the generator in the same state. *)
Theorem monte_carlo_split (weights : list R) (df : DataFrame)
    (n m : Z) (horizon : R) (st : RandomState) :
  ncols df = length weights ->
  (0 <= n)%Z -> (0 <= m)%Z ->
  exists first second st1 st2,
    monte_carlo weights df n horizon st = (Ok first, st1) /\
    monte_carlo weights df m horizon st1 = (Ok second, st2) /\
    monte_carlo weights df (n + m) horizon st = (Ok (first ++ second), st2).
Proof.
  intros Hshape Hn Hm.
  do 4 eexists. split; [apply monte_carlo_draws; assumption|].
  split; [apply monte_carlo_draws; assumption|].
  rewrite monte_carlo_draws by (assumption || lia). cbv zeta.
  rewrite Z2Nat.inj_add, seq_app, map_app by assumption.
  rewrite advance_advance. f_equal. f_equal. f_equal.
  cbn [Nat.add]. rewrite map_seq_from.
  apply map_ext. intros i. rewrite variate_from_advance. reflexivity.
Qed.

Lemma monte_carlo_split_witness :
  exists first second st1 st2,
    monte_carlo scenario_weights scenario_df 2 252 (mkRS tape 0)
      = (Ok first, st1) /\
    monte_carlo scenario_weights scenario_df 3 252 st1 = (Ok second, st2) /\
    monte_carlo scenario_weights scenario_df (2 + 3) 252 (mkRS tape 0)
      = (Ok (first ++ second), st2).
Proof.
  assert (Hn : (0 <= 2)%Z) by lia.
  assert (Hm : (0 <= 3)%Z) by lia.
  exact (monte_carlo_split scenario_weights scenario_df 2 3 252 (mkRS tape 0)
           eq_refl Hn Hm).
Defined.

(* ================================================================= *)
(** ** Beta of a short series *)

(** X10: with fewer than two periods [calculate_beta] raises nothing and
    returns NaN, after drawing one variate per period. *)
Theorem calculate_beta_short_series (weights : list R) (df : DataFrame)
    (st : RandomState) :
  ncols df = length weights ->
  (nrows df <= 1)%nat ->
  calculate_beta weights df st = (Ok NaN, advance st (nrows df)).
Proof.
  intros Hshape HT. rewrite calculate_beta_closed_form. cbv zeta.
  unfold df_matmul. rewrite Hshape, Nat.eqb_refl. cbn [bind].
  f_equal. f_equal.
  unfold beta_noise, nrows in *.
  destruct (rows df) as [|row [|row' rest]]; [| |simpl in HT; lia].
  - unfold np_cov. cbn [map map2 seq length hd Nat.sub INR entry nth].
    float_cases. reflexivity.
  - unfold np_cov. cbn [map map2 seq length hd Nat.sub INR entry nth].
    destruct (mean row); float_cases; reflexivity.
Qed.

Lemma calculate_beta_short_series_witness :
  calculate_beta [1] single_period_df (mkRS tape 0)
    = (Ok NaN, advance (mkRS tape 0) (nrows single_period_df)).
Proof.
  assert (HT : (nrows single_period_df <= 1)%nat)
    by (unfold nrows; simpl; lia).
  exact (calculate_beta_short_series [1] single_period_df (mkRS tape 0)
           eq_refl HT).
Defined.

(* ================================================================= *)
(** ** The two branches of the optimizer *)

Lemma fdot_Fin (u v : list R) : fdot (map Fin u) (map Fin v) = Fin (dot u v).
Proof.
  unfold fdot, dot. rewrite <- fsum_Fin. f_equal.
  revert v. induction u as [|a u IH]; intros v.
  - reflexivity.
  - destruct v as [|b v]; [reflexivity|].
    cbn [map map2 combine fst snd fmul]. rewrite IH. reflexivity.
Qed.

Lemma mat_vec_Fin (M : list (list R)) (v : list R) :
  mat_vec (map (map Fin) M) (map Fin v) =
    map Fin (map (fun row => dot row v) M).
Proof.
  unfold mat_vec. rewrite !map_map. apply map_ext. intros row.
  apply fdot_Fin.
Qed.

Lemma repeat_Fin (r : R) (n : nat) : repeat (Fin r) n = map Fin (repeat r n).
Proof. induction n; simpl; congruence. Qed.

Lemma sum_minus_member (lo hi v : R) (c : list R) :
  Forall (fun e => lo <= e <= hi) c -> In v c ->
  (INR (length c) - 1) * lo <= sum c - v <= (INR (length c) - 1) * hi.
Proof.
  induction 1 as [|h t Hh Hall IH]; intros Hin.
  - contradiction.
  - rewrite sum_cons. change (length (h :: t)) with (S (length t)).
    rewrite S_INR. destruct Hin as [->|Hin].
    + assert (H1 : INR (length t) * lo <= sum t).
      { apply sum_lower_bound. eapply Forall_impl; [|exact Hall].
        intros a Ha. simpl in Ha. lra. }
      assert (H2 : sum t <= INR (length t) * hi).
      { apply sum_le_bound. intros a Ha.
        rewrite Forall_forall in Hall. apply Hall in Ha. lra. }
      lra.
    + specialize (IH Hin). lra.
Qed.

(** Clipped into [0.02, 0.25] and divided by their sum, ten weights sum to
    one and lie between 2/227 and 25/43. *)
Lemma clip_renormalize_range (l : list R) :
  length l = 10%nat ->
  exists w,
    (let c := np_clip (2 / 100) (25 / 100) (map Fin l) in
     map (fun e => fdiv e (fsum c)) c) = map Fin w /\
    length w = 10%nat /\
    sum w = 1 /\
    Forall (fun v => 2 / 227 <= v <= 25 / 43) w.
Proof.
  intros Hl.
  destruct (np_clip_Fin (2 / 100) (25 / 100) l) as [c [Hc [Hlen Hall]]];
    [lra|].
  cbv zeta. rewrite Hc, fsum_Fin.
  assert (Hlo : Forall (fun v => 2 / 100 <= v) c)
    by (eapply Forall_impl; [|exact Hall]; intros a Ha; simpl in Ha; lra).
  pose proof (sum_lower_bound _ _ Hlo) as Hs.
  rewrite Hlen, Hl in Hs.
  change (INR 10) with (1+1+1+1+1+1+1+1+1+1) in Hs.
  assert (Hpos : 0 < sum c) by lra.
  exists (map (fun v => v / sum c) c).
  split; [|split; [|split]].
  - rewrite !map_map. apply map_ext. intros v. apply fdiv_Fin. lra.
  - rewrite length_map. lia.
  - rewrite sum_map_div. field. lra.
  - apply Forall_forall. intros v Hv. apply in_map_iff in Hv.
    destruct Hv as [e [<- He]].
    pose proof (sum_minus_member _ _ e c Hall He) as Hr.
    rewrite Hlen, Hl in Hr.
    change (INR 10) with (1+1+1+1+1+1+1+1+1+1) in Hr.
    rewrite Forall_forall in Hall. pose proof (Hall e He) as Hb.
    split.
    + apply Rmult_le_reg_r with (r := sum c); [assumption|].
      unfold Rdiv at 2. rewrite Rmult_assoc, Rinv_l by lra. lra.
    + apply Rmult_le_reg_r with (r := sum c); [assumption|].
      unfold Rdiv at 1. rewrite Rmult_assoc, Rinv_l by lra. lra.
Qed.

(** X16: on the minimum-variance branch (scipy missing), when the inverse of
    the regularized covariance is finite and its entries do not sum to zero,
    the result is ten finite weights that sum to 1, each between 2/227 and
    25/43: clipping to [0.02, 0.25] and then renormalizing guarantees these
    wider limits only. *)
Theorem fallback_weights_range (np_linalg_inv : matrix -> result matrix)
    (df : DataFrame) (A : matrix) (M : list (list R)) (total : R) :
  broadcast_add (annual_cov df) n_assets
                (scaled_eye n_assets (1 / 100000000)) = Ok A ->
  np_linalg_inv A = Ok (map (map Fin) M) ->
  length M = 10%nat ->
  fdot (vec_mat (repeat (Fin 1) n_assets) (map (map Fin) M))
       (repeat (Fin 1) n_assets) = Fin total ->
  total <> 0 ->
  exists w,
    optimize_portfolio None np_linalg_inv df = Ok (map Fin w) /\
    length w = 10%nat /\
    sum w = 1 /\
    Forall (fun v => 2 / 227 <= v <= 25 / 43) w.
Proof.
  intros HA Hinv HM Htot Hnz.
  unfold optimize_portfolio, import, min_variance_fallback.
  rewrite HA. cbn [bind]. rewrite Hinv. cbn [bind]. rewrite Htot.
  rewrite (repeat_Fin 1 n_assets), mat_vec_Fin.
  rewrite (map_map Fin), (map_ext _ (fun v => Fin (v / total)))
    by (intros v; apply fdiv_Fin; exact Hnz).
  rewrite <- (map_map (fun v => v / total) Fin).
  destruct (clip_renormalize_range
              (map (fun v => v / total)
                   (map (fun row => dot row (repeat 1 n_assets)) M)))
    as [w [Hw [Hlen [Hsum Hall]]]].
  { rewrite !length_map. exact HM. }
  cbv zeta in Hw. exists w. rewrite Hw. repeat split; assumption.
Qed.

Lemma one_mover_total :
  fdot (vec_mat (repeat (Fin 1) n_assets)
                (map (map Fin) one_mover_inverse_values))
       (repeat (Fin 1) n_assets)
  = Fin (1134001000000000 / 1260001).
Proof.
  unfold vec_mat, one_mover_inverse_values, n_assets, TICKERS.
  cbn [length repeat seq map Nat.eqb nth hd]. float_eval. fin_lists.
Qed.

Lemma fallback_weights_range_witness :
  exists w,
    optimize_portfolio None (fun _ => Ok one_mover_inverse) one_mover_df
      = Ok (map Fin w) /\
    sum w = 1.
Proof.
  assert (Hnz : 1134001000000000 / 1260001 <> 0) by lra.
  destruct (fallback_weights_range (fun _ => Ok one_mover_inverse)
              one_mover_df one_mover_regularized one_mover_inverse_values
              (1134001000000000 / 1260001)
              one_mover_regularized_cov eq_refl eq_refl one_mover_total Hnz)
    as [w [H [_ [Hs _]]]].
  exists w. split; assumption.
Defined.




(** X18: whenever the solver reports non-convergence, the vector
    [optimize_portfolio] returns satisfies the budget and the position limits,
    whatever the solver's iterate was. *)
Theorem non_convergence_result_feasible (minimize : minimize_t)
    (np_linalg_inv : matrix -> result matrix) (df : DataFrame) :
  success (slsqp minimize df) = false ->
  exists w,
    optimize_portfolio (Some minimize) np_linalg_inv df = Ok w /\
    feasible w.
Proof.
  intros H. unfold optimize_portfolio. cbn [import]. rewrite H.
  eexists. split; [reflexivity|apply w0_feasible].
Qed.

Lemma non_convergence_result_feasible_witness :
  exists w,
    optimize_portfolio (Some solver_failed) no_inverse one_mover_df = Ok w /\
    feasible w.
Proof.
  exact (non_convergence_result_feasible solver_failed no_inverse
           one_mover_df eq_refl).
Defined.

(* ================================================================= *)
(** ** The objective of the solver *)

Lemma fmean_Fin (l : list R) :
  l <> [] -> fmean (map Fin l) = Fin (sum l / INR (length l)).
Proof.
  intros H. unfold fmean. rewrite fsum_Fin, length_map.
  apply fdiv_Fin. pose proof (INR_length_pos _ l H). lra.
Qed.

Lemma np_cov_Fin (T : nat) (cols : list (list R)) :
  (2 <= T)%nat ->
  Forall (fun c => length c = T) cols ->
  np_cov (map (map Fin) cols) =
    map (fun ci => map (fun cj => Fin (sample_cov ci cj)) cols) cols.
Proof.
  intros HT Hall. unfold np_cov.
  assert (Hdev : map (fun v => map (fun e => fsub e (fmean v)) v)
                     (map (map Fin) cols)
                 = map (fun c => map Fin (centered c)) cols).
  { rewrite map_map. apply map_ext_in. intros c Hc.
    rewrite Forall_forall in Hall. specialize (Hall c Hc).
    rewrite fmean_Fin by (intros E; rewrite E in Hall; simpl in Hall; lia).
    unfold centered. rewrite !map_map. reflexivity. }
  rewrite Hdev.
  destruct cols as [|c0 rest] eqn:Ecols; [reflexivity|].
  rewrite <- Ecols in *.
  assert (Hfact : fdiv (Fin 1)
                       (Fin (INR (length (hd [] (map (map Fin) cols)) - 1)))
                  = Fin (1 / INR (T - 1))).
  { rewrite Ecols. cbn [map hd]. rewrite length_map.
    rewrite Forall_forall in Hall.
    rewrite (Hall c0) by (rewrite Ecols; left; reflexivity).
    apply fdiv_Fin. rewrite minus_INR by lia. apply le_INR in HT.
    change (INR 2) with 2 in HT. change (INR 1) with 1. lra. }
  rewrite Hfact. clear Ecols Hfact Hdev.
  rewrite map_map. apply map_ext_in. intros ci Hci.
  rewrite map_map. apply map_ext_in. intros cj Hcj.
  rewrite fdot_Fin. cbn [fmul]. unfold sample_cov.
  rewrite Forall_forall in Hall. rewrite (Hall ci Hci). reflexivity.
Qed.

Lemma column_length (df : DataFrame) (j : nat) :
  length (column df j) = nrows df.
Proof. unfold column, nrows. apply length_map. Qed.

Lemma annual_cov_Fin (df : DataFrame) :
  (2 <= nrows df)%nat ->
  annual_cov df =
    map (fun i => map (fun j => Fin (annual_cov_entry df i j))
                      (seq 0 (ncols df)))
        (seq 0 (ncols df)).
Proof.
  intros HT. unfold annual_cov, df_cov, scale_matrix.
  rewrite (np_cov_Fin (nrows df)); [|assumption|].
  - unfold columns. rewrite !map_map. apply map_ext. intros i.
    rewrite !map_map. apply map_ext. intros j. reflexivity.
  - unfold columns. apply Forall_forall. intros c Hc.
    apply in_map_iff in Hc. destruct Hc as [j [<- _]]. apply column_length.
Qed.

Lemma dot_indexed (u : list R) (g : nat -> R) (n : nat) :
  length u = n ->
  dot u (map g (seq 0 n)) = big_sum (fun j => g j * nth j u 0) n.
Proof.
  intros Hu. rewrite dot_spec. unfold spec_period_return.
  rewrite length_map, length_seq.
  apply big_sum_ext. intros j Hj. rewrite nth_map_seq by exact Hj.
  reflexivity.
Qed.

Lemma dot_indexed_l (g : nat -> R) (u : list R) (n : nat) :
  length u = n ->
  dot (map g (seq 0 n)) u = big_sum (fun j => nth j u 0 * g j) n.
Proof.
  intros Hu. rewrite dot_spec. unfold spec_period_return. rewrite Hu.
  apply big_sum_ext. intros j Hj. rewrite nth_map_seq by exact Hj.
  reflexivity.
Qed.

Lemma map_Fin_seq (g : nat -> R) (n : nat) :
  map (fun j => Fin (g j)) (seq 0 n) = map Fin (map g (seq 0 n)).
Proof. rewrite map_map. reflexivity. Qed.

Lemma vec_mat_Fin (w : list R) (q : nat -> nat -> R) (n : nat) :
  length w = n ->
  vec_mat (map Fin w)
          (map (fun i => map (fun j => Fin (q i j)) (seq 0 n)) (seq 0 n))
  = map (fun j => Fin (big_sum (fun i => q i j * nth i w 0) n)) (seq 0 n).
Proof.
  intros Hw. unfold vec_mat.
  assert (Hhd : length (hd [] (map (fun i => map (fun j => Fin (q i j))
                                                 (seq 0 n)) (seq 0 n))) = n).
  { destruct n as [|n]; [reflexivity|].
    cbn [seq map hd length]. rewrite length_map, length_seq. reflexivity. }
  rewrite Hhd. apply map_ext_in. intros j Hj. apply in_seq in Hj.
  rewrite map_map.
  rewrite (map_ext_in _ (fun i => Fin (q i j)))
    by (intros i _; apply nth_map_seq; lia).
  rewrite map_Fin_seq, fdot_Fin, dot_indexed by exact Hw. reflexivity.
Qed.

(** The solver's objective on finite weights, as a real expression. *)
Lemma neg_sharpe_Fin (df : DataFrame) (w : list R) :
  ncols df = length w ->
  (2 <= nrows df)%nat ->
  neg_sharpe df (map Fin w) =
    fdiv (Fin (- (big_sum (fun j => nth j w 0
                                    * (spec_mean (column df j) * TRADE_DAYS))
                          (ncols df) - RISK_FREE)))
         (fsqrt (Fin (big_sum
                        (fun j => nth j w 0
                                  * big_sum (fun i => annual_cov_entry df i j
                                                      * nth i w 0)
                                            (ncols df))
                        (ncols df)))).
Proof.
  intros Hshape HT. unfold neg_sharpe.
  rewrite annual_cov_Fin by assumption.
  rewrite vec_mat_Fin by (symmetry; exact Hshape).
  unfold df_mean, columns. rewrite !map_map.
  rewrite (map_ext_in _ (fun j => Fin (spec_mean (column df j) * TRADE_DAYS))).
  2:{ intros j _. rewrite mean_Fin; [reflexivity|].
      intros E. apply (f_equal (@length R)) in E.
      rewrite column_length in E. simpl in E. lia. }
  rewrite !map_Fin_seq, !fdot_Fin.
  rewrite dot_indexed by (symmetry; exact Hshape).
  rewrite dot_indexed_l by (symmetry; exact Hshape).
  cbn [fsub fneg fadd].
  rewrite (big_sum_ext
             (fun j => spec_mean (column df j) * TRADE_DAYS * nth j w 0)
             (fun j => nth j w 0 * (spec_mean (column df j) * TRADE_DAYS)))
    by (intros j _; ring).
  reflexivity.
Qed.

Lemma big_sum_plus (f g : nat -> R) (n : nat) :
  big_sum (fun i => f i + g i) n = big_sum f n + big_sum g n.
Proof.
  induction n as [|n IH]; simpl.
  - ring.
  - rewrite IH. ring.
Qed.

Lemma big_sum_exchange (f : nat -> nat -> R) (n m : nat) :
  big_sum (fun i => big_sum (fun j => f i j) m) n =
  big_sum (fun j => big_sum (fun i => f i j) n) m.
Proof.
  induction n as [|n IH]; cbn [big_sum].
  - symmetry. apply big_sum_zero. reflexivity.
  - rewrite IH, <- big_sum_plus. reflexivity.
Qed.

Lemma big_sum_scale_r (k : R) (f : nat -> R) (n : nat) :
  big_sum (fun i => f i * k) n = big_sum f n * k.
Proof.
  induction n as [|n IH]; simpl.
  - ring.
  - rewrite IH. ring.
Qed.

Lemma nth_column (df : DataFrame) (j t : nat) :
  nth t (column df j) 0 = cell df t j.
Proof.
  unfold column, cell.
  rewrite <- (map_nth (fun row => nth j row 0) (rows df) [] t).
  destruct j; reflexivity.
Qed.

Lemma nth_spec_period_returns (w : list R) (df : DataFrame) (t : nat) :
  nth t (spec_period_returns w df) 0 =
    big_sum (fun j => nth j w 0 * cell df t j) (length w).
Proof.
  unfold spec_period_returns, cell.
  assert (E : spec_period_return w [] = 0).
  { apply big_sum_zero. intros i _. destruct i; simpl; ring. }
  transitivity (nth t (map (spec_period_return w) (rows df))
                    (spec_period_return w [])).
  - f_equal. symmetry. exact E.
  - rewrite map_nth. reflexivity.
Qed.

Lemma spec_mean_indexed (l : list R) (T : nat) :
  length l = T ->
  spec_mean l = big_sum (fun t => nth t l 0) T / INR T.
Proof. intros <-. reflexivity. Qed.

(** The weighted sum of the column means is the mean of the portfolio
    returns. *)
Lemma weighted_column_means (w : list R) (df : DataFrame) :
  ncols df = length w ->
  big_sum (fun j => nth j w 0 * spec_mean (column df j)) (ncols df) =
  spec_mean (spec_period_returns w df).
Proof.
  intros Hshape.
  rewrite (spec_mean_indexed (spec_period_returns w df) (nrows df))
    by apply spec_period_returns_length.
  rewrite (big_sum_ext _ (fun j =>
             big_sum (fun t => nth j w 0 * cell df t j) (nrows df)
             * / INR (nrows df))).
  2:{ intros j _.
      rewrite (spec_mean_indexed (column df j) (nrows df))
        by apply column_length.
      rewrite big_sum_scale. unfold Rdiv.
      rewrite (big_sum_ext _ (fun t => cell df t j))
        by (intros t _; apply nth_column).
      ring. }
  rewrite big_sum_scale_r, big_sum_exchange. unfold Rdiv. f_equal.
  apply big_sum_ext. intros t _. rewrite nth_spec_period_returns.
  rewrite Hshape. reflexivity.
Qed.

Lemma nth_centered (df : DataFrame) (j t : nat) :
  (t < nrows df)%nat ->
  nth t (centered (column df j)) 0 = deviation df t j.
Proof.
  intros Ht. unfold centered, deviation.
  rewrite (nth_indep _ 0 ((fun e => e + - (sum (column df j)
                                          / INR (length (column df j)))) 0))
    by (rewrite length_map, column_length; exact Ht).
  rewrite (map_nth (fun e => e + - (sum (column df j)
                                    / INR (length (column df j))))).
  rewrite nth_column, spec_mean_sum. ring.
Qed.

Lemma annual_cov_entry_indexed (df : DataFrame) (i j : nat) :
  (2 <= nrows df)%nat ->
  annual_cov_entry df i j =
    big_sum (fun t => deviation df t j * deviation df t i) (nrows df)
    * (1 / (INR (nrows df) - 1)) * TRADE_DAYS.
Proof.
  intros HT. unfold annual_cov_entry, sample_cov.
  rewrite dot_spec. unfold spec_period_return.
  unfold centered at 3. rewrite length_map, !column_length.
  rewrite minus_INR by lia. change (INR 1) with 1.
  f_equal. f_equal. apply big_sum_ext. intros t Ht.
  rewrite !nth_centered by exact Ht. reflexivity.
Qed.

Lemma quadratic_form (w : nat -> R) (d : nat -> nat -> R) (K : R)
    (N T : nat) :
  big_sum (fun j =>
             w j * big_sum (fun i =>
                              big_sum (fun t => d t j * d t i) T * K * w i)
                           N)
          N
  = K * big_sum (fun t => (big_sum (fun i => w i * d t i) N) ^ 2) T.
Proof.
  rewrite (big_sum_ext _ (fun j =>
             big_sum (fun t =>
                        K * (w j * d t j * big_sum (fun i => w i * d t i) N))
                     T)).
  2:{ intros j _.
      rewrite (big_sum_ext _ (fun i =>
                 big_sum (fun t => K * (d t j * (w i * d t i))) T)).
      2:{ intros i _. rewrite <- big_sum_scale_r, <- big_sum_scale_r.
          apply big_sum_ext. intros t _. ring. }
      rewrite big_sum_exchange, <- big_sum_scale.
      apply big_sum_ext. intros t _.
      rewrite !big_sum_scale. ring. }
  rewrite big_sum_exchange, <- big_sum_scale.
  apply big_sum_ext. intros t _.
  rewrite big_sum_scale. f_equal.
  rewrite big_sum_scale_r. ring.
Qed.

Lemma weighted_deviations (w : list R) (df : DataFrame) (t : nat) :
  ncols df = length w ->
  big_sum (fun i => nth i w 0 * deviation df t i) (ncols df) =
  nth t (spec_period_returns w df) 0 - spec_mean (spec_period_returns w df).
Proof.
  intros Hshape. unfold deviation.
  rewrite (big_sum_ext _ (fun i =>
             nth i w 0 * cell df t i
             + (- 1) * (nth i w 0 * spec_mean (column df i))))
    by (intros i _; ring).
  rewrite big_sum_plus, big_sum_scale, weighted_column_means by exact Hshape.
  rewrite nth_spec_period_returns, Hshape. ring.
Qed.

(** The quadratic form of the annualized covariance in the weights is the
    annualized sample variance of the portfolio returns. *)
Lemma portfolio_variance (w : list R) (df : DataFrame) :
  ncols df = length w ->
  (2 <= nrows df)%nat ->
  big_sum (fun j => nth j w 0
                    * big_sum (fun i => annual_cov_entry df i j * nth i w 0)
                              (ncols df))
          (ncols df)
  = big_sum (fun t => (nth t (spec_period_returns w df) 0
                       - spec_mean (spec_period_returns w df)) ^ 2)
            (nrows df)
    / (INR (nrows df) - 1) * TRADE_DAYS.
Proof.
  intros Hshape HT.
  rewrite (big_sum_ext _ (fun j =>
             nth j w 0
             * big_sum (fun i =>
                          big_sum (fun t => deviation df t j
                                            * deviation df t i) (nrows df)
                          * (1 / (INR (nrows df) - 1) * TRADE_DAYS)
                          * nth i w 0)
                       (ncols df))).
  2:{ intros j _. f_equal. apply big_sum_ext. intros i _.
      rewrite annual_cov_entry_indexed by exact HT. ring. }
  rewrite (quadratic_form (fun i => nth i w 0) (deviation df)).
  rewrite (big_sum_ext _ (fun t =>
             (nth t (spec_period_returns w df) 0
              - spec_mean (spec_period_returns w df)) ^ 2))
    by (intros t _; rewrite weighted_deviations by exact Hshape; reflexivity).
  unfold Rdiv. ring.
Qed.

Lemma fdiv_neg (a b : R) :
  fdiv (Fin (- a)) (Fin b) = fneg (fdiv (Fin a) (Fin b)).
Proof.
  unfold fdiv. destruct (Req_dec_T b 0).
  - unfold inf_of_sign.
    destruct (total_order_T (- a) 0) as [[?|?]|?],
             (total_order_T a 0) as [[?|?]|?];
      try (exfalso; lra); reflexivity.
  - cbn [fneg]. f_equal. unfold Rdiv. ring.
Qed.

(** X9: the objective handed to the solver, evaluated at finite weights, is
    the negation of the Sharpe ratio [portfolio_metrics] reports for those
    weights (two or more periods): the mean-and-covariance form of the
    objective and the series form of the metric agree. *)
Theorem neg_sharpe_is_minus_sharpe (weights : list R) (df : DataFrame) :
  ncols df = length weights ->
  (2 <= nrows df)%nat ->
  exists ann_return ann_vol sharpe,
    portfolio_metrics weights df = Ok (ann_return, ann_vol, sharpe) /\
    neg_sharpe df (map Fin weights) = fneg sharpe.
Proof.
  intros Hshape HT.
  do 3 eexists. split; [apply portfolio_metrics_closed_form; assumption|].
  rewrite neg_sharpe_Fin by assumption.
  rewrite portfolio_variance by assumption.
  rewrite (big_sum_ext _ (fun j =>
             (nth j weights 0 * spec_mean (column df j)) * TRADE_DAYS))
    by (intros j _; ring).
  rewrite big_sum_scale_r, weighted_column_means by exact Hshape.
  pose proof (spec_period_returns_length weights df) as Hlen.
  pose proof (sample_variance_nonneg (spec_period_returns weights df)
                ltac:(lia)) as Hvar.
  rewrite Hlen in Hvar.
  unfold TRADE_DAYS.
  rewrite fsqrt_Fin by nra.
  rewrite sqrt_mult by lra.
  rewrite fdiv_neg. unfold spec_std. rewrite Hlen. reflexivity.
Qed.

Lemma neg_sharpe_is_minus_sharpe_witness :
  exists ann_return ann_vol sharpe,
    portfolio_metrics scenario_weights scenario_df
      = Ok (ann_return, ann_vol, sharpe) /\
    neg_sharpe scenario_df (map Fin scenario_weights) = fneg sharpe.
Proof.
  exact (neg_sharpe_is_minus_sharpe scenario_weights scenario_df eq_refl
           scenario_two_periods).
Defined.

(* ================================================================= *)
(** ** The simulated price history *)

Lemma reshape_shape (cols rows : nat) (l : list R) :
  length l = (rows * cols)%nat ->
  length (reshape cols rows l) = rows /\
  Forall (fun row => length row = cols) (reshape cols rows l).
Proof.
  revert l. induction rows as [|r IH]; intros l Hl; cbn [reshape].
  - split; [reflexivity|constructor].
  - destruct (IH (skipn cols l)) as [H1 H2].
    { rewrite length_skipn, Hl. simpl. lia. }
    split; [simpl; rewrite H1; reflexivity|].
    constructor; [|exact H2].
    rewrite length_firstn, Hl. simpl. lia.
Qed.

Lemma gauss_n_length (n : nat) (st : RandomState) :
  length (fst (gauss_n n st)) = n.
Proof.
  rewrite gauss_n_spec. cbn [fst]. rewrite length_map, length_seq.
  reflexivity.
Qed.

Lemma map2_length (A B C : Type) (f : A -> B -> C) (u : list A) (v : list B) :
  length (map2 f u v) = Nat.min (length u) (length v).
Proof.
  revert v. induction u as [|a u IH]; intros v.
  - reflexivity.
  - destruct v as [|b v]; [reflexivity|]. cbn [map2 length]. rewrite IH. lia.
Qed.

Lemma nth_map2_mult (u v : list R) (j : nat) :
  nth j (map2 Rmult u v) 0 = nth j u 0 * nth j v 0.
Proof.
  revert v j. induction u as [|a u IH]; intros v j.
  - cbn [map2]. destruct j; simpl; ring.
  - destruct v as [|b v].
    + cbn [map2]. destruct j; simpl; ring.
    + destruct j as [|j]; cbn [map2 nth]; [reflexivity|apply IH].
Qed.

Lemma cumprod_from_length (acc : list R) (rows : list (list R)) :
  length (cumprod_from acc rows) = length rows.
Proof.
  revert acc.
  induction rows as [|r rest IH]; intros acc; cbn [cumprod_from length].
  - reflexivity.
  - rewrite IH. reflexivity.
Qed.

Lemma np_cumprod_length (rows : list (list R)) :
  length (np_cumprod rows) = length rows.
Proof.
  destruct rows as [|r rest]; [reflexivity|].
  cbn [np_cumprod length]. rewrite cumprod_from_length. reflexivity.
Qed.

Lemma cumprod_from_widths (w : nat) (acc : list R) (rows : list (list R)) :
  length acc = w -> Forall (fun row => length row = w) rows ->
  Forall (fun row => length row = w) (cumprod_from acc rows).
Proof.
  intros Hacc Hall. revert acc Hacc.
  induction Hall as [|r rest Hr _ IH]; intros acc Hacc; cbn [cumprod_from].
  - constructor.
  - assert (Hw : length (map2 Rmult acc r) = w)
      by (rewrite map2_length, Hacc, Hr; lia).
    constructor; [exact Hw|apply IH; exact Hw].
Qed.

Lemma np_cumprod_widths (w : nat) (rows : list (list R)) :
  Forall (fun row => length row = w) rows ->
  Forall (fun row => length row = w) (np_cumprod rows).
Proof.
  intros Hall. destruct Hall as [|r rest Hr Hrest]; cbn [np_cumprod].
  - constructor.
  - constructor; [exact Hr|apply cumprod_from_widths; assumption].
Qed.

Lemma cumprod_from_step (acc : list R) (rows : list (list R)) (t : nat) :
  (t < length rows)%nat ->
  nth t (cumprod_from acc rows) [] =
    map2 Rmult (nth t (acc :: cumprod_from acc rows) []) (nth t rows []).
Proof.
  revert acc t. induction rows as [|r rest IH]; intros acc t Ht.
  - simpl in Ht. lia.
  - destruct t as [|t]; cbn [cumprod_from nth].
    + reflexivity.
    + apply IH. simpl in Ht. lia.
Qed.

Lemma np_cumprod_step (rows : list (list R)) (t : nat) :
  (S t < length rows)%nat ->
  nth (S t) (np_cumprod rows) [] =
    map2 Rmult (nth t (np_cumprod rows) []) (nth (S t) rows []).
Proof.
  intros Ht. destruct rows as [|r rest]; [simpl in Ht; lia|].
  cbn [np_cumprod nth]. apply cumprod_from_step. simpl in Ht. lia.
Qed.

Lemma np_cumprod_first (rows : list (list R)) :
  nth 0 (np_cumprod rows) [] = nth 0 rows [].
Proof. destruct rows; reflexivity. Qed.

Lemma generate_price_data_closed_form
    (np_linalg_cholesky : list (list R) -> result (list (list R)))
    (L : list (list R)) (n_days : Z) (st : RandomState) :
  np_linalg_cholesky corr = Ok L ->
  length L = 10%nat ->
  Forall (fun row => length row = 10%nat) L ->
  (0 <= n_days)%Z ->
  let returns :=
    returns_of L (Z.to_nat n_days)
               (map (variate_from st) (seq 0 (Z.to_nat n_days * 10))) in
  generate_price_data np_linalg_cholesky n_days st =
    (Ok (mkDF 10 returns, mkDF 10 (prices_of returns)),
     advance st (Z.to_nat n_days * 10)).
Proof.
  intros Hchol HL Hrows Hn returns.
  unfold generate_price_data. rewrite Hchol.
  unfold np_random_standard_normal.
  destruct (Z.ltb_spec n_days 0) as [Hneg|_]; [lia|].
  change (length TICKERS) with 10%nat.
  rewrite gauss_n_spec. cbn [bind].
  unfold matmul_transpose.
  assert (Hfb : forallb (fun row => Nat.eqb (length row) 10) L = true).
  { apply forallb_forall. intros row Hrow.
    rewrite Forall_forall in Hrows. rewrite (Hrows row Hrow).
    reflexivity. }
  rewrite Hfb. cbn [bind].
  change (length sigma_annual) with 10%nat.
  unfold broadcast_rows. rewrite HL. cbn [Nat.eqb bind].
  reflexivity.
Qed.

Lemma returns_of_shape (L : list (list R)) (n : nat) (zs : list R) :
  length L = 10%nat ->
  length zs = (n * 10)%nat ->
  length (returns_of L n zs) = n /\
  Forall (fun row => length row = 10%nat) (returns_of L n zs).
Proof.
  intros HL Hzs. destruct (reshape_shape 10 n zs Hzs) as [H1 H2].
  unfold returns_of. split.
  - rewrite !length_map. exact H1.
  - apply Forall_forall. intros row Hrow.
    apply in_map_iff in Hrow. destruct Hrow as [cz [<- Hcz]].
    apply in_map_iff in Hcz. destruct Hcz as [z [<- _]].
    rewrite !map2_length, !length_map, HL. reflexivity.
Qed.

Lemma prices_of_shape (n : nat) (returns : list (list R)) :
  length returns = n ->
  Forall (fun row => length row = 10%nat) returns ->
  length (prices_of returns) = n /\
  Forall (fun row => length row = 10%nat) (prices_of returns).
Proof.
  intros Hn Hall. unfold prices_of. split.
  - rewrite length_map, np_cumprod_length, length_map. exact Hn.
  - apply Forall_forall. intros row Hrow.
    apply in_map_iff in Hrow. destruct Hrow as [p [<- Hp]].
    rewrite length_map.
    assert (Hw : Forall (fun r => length r = 10%nat)
                        (np_cumprod (map (map (Rplus 1)) returns))).
    { apply np_cumprod_widths. apply Forall_forall. intros r Hr.
      apply in_map_iff in Hr. destruct Hr as [r0 [<- Hr0]].
      rewrite length_map. rewrite Forall_forall in Hall. apply Hall, Hr0. }
    rewrite Forall_forall in Hw. apply Hw, Hp.
Qed.

(** X19: given a ten-by-ten Cholesky factor and [n_days >= 0],
    [generate_price_data] returns two rectangular frames of [n_days] rows and
    ten columns and draws [10 * n_days] variates from the global generator. *)
Theorem generate_price_data_shape
    (np_linalg_cholesky : list (list R) -> result (list (list R)))
    (L : list (list R)) (n_days : Z) (st : RandomState) :
  np_linalg_cholesky corr = Ok L ->
  length L = 10%nat ->
  Forall (fun row => length row = 10%nat) L ->
  (0 <= n_days)%Z ->
  exists returns_df prices_df,
    generate_price_data np_linalg_cholesky n_days st =
      (Ok (returns_df, prices_df), advance st (Z.to_nat n_days * 10)) /\
    ncols returns_df = 10%nat /\ nrows returns_df = Z.to_nat n_days /\
    rectangular returns_df /\
    ncols prices_df = 10%nat /\ nrows prices_df = Z.to_nat n_days /\
    rectangular prices_df.
Proof.
  intros Hchol HL Hrows Hn.
  pose proof (generate_price_data_closed_form _ L n_days st Hchol HL Hrows Hn)
    as H. cbv zeta in H.
  set (zs := map (variate_from st) (seq 0 (Z.to_nat n_days * 10))) in *.
  assert (Hzs : length zs = (Z.to_nat n_days * 10)%nat)
    by (unfold zs; rewrite length_map, length_seq; reflexivity).
  destruct (returns_of_shape L _ zs HL Hzs) as [R1 R2].
  destruct (prices_of_shape _ _ R1 R2) as [P1 P2].
  do 2 eexists. split; [exact H|].
  unfold rectangular, nrows. cbn [ncols rows].
  repeat split; assumption.
Qed.

Lemma cholesky_identity_square :
  exists L,
    cholesky_identity corr = Ok L /\ length L = 10%nat /\
    Forall (fun row => length row = 10%nat) L.
Proof.
  eexists. split; [reflexivity|]. split; [reflexivity|].
  repeat constructor.
Qed.

Lemma generate_price_data_shape_witness :
  exists returns_df prices_df,
    generate_price_data cholesky_identity 3 (mkRS tape 0)
      = (Ok (returns_df, prices_df), advance (mkRS tape 0) (Z.to_nat 3 * 10))
    /\ nrows returns_df = Z.to_nat 3 /\ rectangular prices_df.
Proof.
  destruct cholesky_identity_square as [L [H1 [H2 H3]]].
  assert (Hn : (0 <= 3)%Z) by lia.
  destruct (generate_price_data_shape cholesky_identity L 3 (mkRS tape 0)
              H1 H2 H3 Hn) as [r [p [H [_ [Hr [_ [_ [_ Hp]]]]]]]].
  exists r, p. repeat split; assumption.
Defined.

(** X20: an exception of the Cholesky factorization reaches the caller of
    [generate_price_data] with the generator untouched, and a negative
    [n_days] raises [ValueError], again before any variate is drawn. *)
Theorem generate_price_data_errors
    (np_linalg_cholesky : list (list R) -> result (list (list R)))
    (n_days : Z) (st : RandomState) :
  (forall e, np_linalg_cholesky corr = Raise e ->
             generate_price_data np_linalg_cholesky n_days st
             = (Raise e, st)) /\
  (forall L, np_linalg_cholesky corr = Ok L -> (n_days < 0)%Z ->
             generate_price_data np_linalg_cholesky n_days st
             = (Raise ValueError, st)).
Proof.
  split.
  - intros e He. unfold generate_price_data. rewrite He. reflexivity.
  - intros L HL Hneg. unfold generate_price_data, np_random_standard_normal.
    rewrite HL. destruct (Z.ltb_spec n_days 0) as [_|H]; [reflexivity|lia].
Qed.

Lemma generate_price_data_errors_witness :
  generate_price_data cholesky_fails 3 (mkRS tape 0)
    = (Raise LinAlgError, mkRS tape 0) /\
  generate_price_data cholesky_identity (- 1) (mkRS tape 0)
    = (Raise ValueError, mkRS tape 0).
Proof.
  split.
  - apply (proj1 (generate_price_data_errors cholesky_fails 3
                    (mkRS tape 0))). reflexivity.
  - destruct cholesky_identity_square as [L [H1 _]].
    apply (proj2 (generate_price_data_errors cholesky_identity (- 1)
                    (mkRS tape 0)) L H1). lia.
Defined.

Lemma nth_plus_one (row : list R) (j : nat) :
  (j < length row)%nat -> nth j (map (Rplus 1) row) 0 = 1 + nth j row 0.
Proof.
  intros Hj. rewrite (nth_indep _ 0 (1 + 0)) by (rewrite length_map; exact Hj).
  apply (map_nth (Rplus 1)).
Qed.

Lemma cell_prices (returns : list (list R)) (t j : nat) :
  cell (mkDF 10 (prices_of returns)) t j =
    100 * nth j (nth t (np_cumprod (map (map (Rplus 1)) returns)) []) 0.
Proof.
  unfold cell, prices_of. cbn [rows].
  set (P := np_cumprod (map (map (Rplus 1)) returns)).
  replace (nth t (map (map (Rmult 100)) P) [])
    with (map (Rmult 100) (nth t P []))
    by (symmetry; apply (map_nth (map (Rmult 100)) P [] t)).
  apply nth_scale.
Qed.

Lemma prices_compound_returns (returns : list (list R)) (t j : nat) :
  Forall (fun row => length row = 10%nat) returns ->
  (j < 10)%nat ->
  let rdf := mkDF 10 returns in
  let pdf := mkDF 10 (prices_of returns) in
  ((0 < length returns)%nat ->
   cell pdf 0 j = 100 * (1 + cell rdf 0 j)) /\
  ((S t < length returns)%nat ->
   cell pdf (S t) j = cell pdf t j * (1 + cell rdf (S t) j)).
Proof.
  intros Hall Hj rdf pdf. unfold rdf, pdf.
  assert (Hrow : forall s, (s < length returns)%nat ->
            nth j (nth s (map (map (Rplus 1)) returns) []) 0
            = 1 + cell (mkDF 10 returns) s j).
  { intros s Hs. unfold cell. cbn [rows].
    replace (nth s (map (map (Rplus 1)) returns) [])
      with (map (Rplus 1) (nth s returns []))
      by (symmetry; apply (map_nth (map (Rplus 1)) returns [] s)).
    apply nth_plus_one. rewrite Forall_forall in Hall.
    rewrite (Hall (nth s returns [])) by (apply nth_In; exact Hs).
    exact Hj. }
  split.
  - intros H0. rewrite cell_prices, np_cumprod_first, Hrow by exact H0.
    reflexivity.
  - intros Ht. rewrite !cell_prices.
    rewrite np_cumprod_step by (rewrite length_map; exact Ht).
    rewrite nth_map2_mult, Hrow by exact Ht. ring.
Qed.

(* ================================================================= *)
(** ** The executive report *)

Lemma CURRENT_WEIGHTS_length : length CURRENT_WEIGHTS = 10%nat.
Proof. reflexivity. Qed.

(** X22: on a returns frame that has not ten columns [print_report] fails with
    [ValueError] at its first metric, before any variate is drawn. *)
Theorem print_report_wrong_width (scipy_stats : option (R -> float64))
    (returns_df prices_df : DataFrame) (opt_weights : list R)
    (st : RandomState) :
  ncols returns_df <> 10%nat ->
  print_report scipy_stats returns_df prices_df opt_weights st =
    (Failed (EngineError ValueError), st).
Proof.
  intros H. unfold print_report, and_then, pure_step, portfolio_metrics.
  rewrite (df_matmul_mismatch returns_df CURRENT_WEIGHTS)
    by (rewrite CURRENT_WEIGHTS_length; exact H).
  reflexivity.
Qed.

Lemma print_report_wrong_width_witness :
  print_report None scenario_df scenario_df CURRENT_WEIGHTS (mkRS tape 0)
    = (Failed (EngineError ValueError), mkRS tape 0).
Proof.
  apply (print_report_wrong_width None scenario_df scenario_df
           CURRENT_WEIGHTS (mkRS tape 0)).
  simpl. lia.
Defined.

(** X23: without scipy [print_report] never completes; on a ten-column frame
    with at least one period it fails with [ImportError] before any variate is
    drawn. *)
Theorem print_report_needs_scipy (returns_df prices_df : DataFrame)
    (opt_weights : list R) (st : RandomState) :
  (forall rep st',
     print_report None returns_df prices_df opt_weights st
     <> (Done rep, st')) /\
  (ncols returns_df = 10%nat -> (1 <= nrows returns_df)%nat ->
   print_report None returns_df prices_df opt_weights st =
     (Failed (EngineError ImportError), st)).
Proof.
  split.
  - intros rep st'. unfold print_report, and_then, pure_step.
    destruct (portfolio_metrics CURRENT_WEIGHTS returns_df) as [m|e];
      [|discriminate].
    destruct (calculate_var None CURRENT_WEIGHTS returns_df (99 / 100))
      as [v|e] eqn:E; [|discriminate].
    exfalso.
    apply (calculate_var_no_scipy_fails CURRENT_WEIGHTS returns_df
             (99 / 100) v E).
  - intros Hw HT. unfold print_report, and_then, pure_step.
    destruct (portfolio_metrics CURRENT_WEIGHTS returns_df) as [m|e] eqn:Em.
    + rewrite (calculate_var_no_scipy_import_error CURRENT_WEIGHTS
                 returns_df (99 / 100)); [reflexivity|exact Hw|exact HT|lra].
    + exfalso. unfold portfolio_metrics in Em.
      rewrite df_matmul_spec in Em by exact Hw. discriminate.
Qed.

Lemma print_report_needs_scipy_witness :
  print_report None one_mover_df one_mover_df CURRENT_WEIGHTS (mkRS tape 0)
    = (Failed (EngineError ImportError), mkRS tape 0).
Proof.
  apply (proj2 (print_report_needs_scipy one_mover_df one_mover_df
                  CURRENT_WEIGHTS (mkRS tape 0))).
  - reflexivity.
  - unfold nrows. simpl. lia.
Defined.

Lemma calculate_beta_Ok (w : list R) (df : DataFrame) (st : RandomState) :
  ncols df = length w ->
  exists b, calculate_beta w df st = (Ok b, advance st (nrows df)).
Proof.
  intros H. rewrite calculate_beta_closed_form. cbv zeta.
  rewrite df_matmul_spec by exact H. cbn [bind]. eexists. reflexivity.
Qed.

Lemma calculate_var_Ok (ppf : R -> float64) (w : list R) (df : DataFrame)
    (c : R) :
  ncols df = length w -> (1 <= nrows df)%nat -> 0 <= c <= 1 ->
  exists vh vp cv, calculate_var (Some ppf) w df c = Ok (Fin vh, vp, Fin cv).
Proof.
  intros Hshape HT Hc.
  pose proof (np_percentile_order_statistic _ ((1 - c) * 100)
                (port_dollar_nonempty w df HT) ltac:(lra)) as Ht.
  destruct (calculate_var_closed_form ppf w df c _ _
              (df_matmul_spec df w Hshape) Ht) as [_ [_ H]].
  do 3 eexists. exact H.
Qed.

Lemma allocation_lines_Done (opt_weights : list R) :
  length opt_weights = 10%nat ->
  exists lines,
    allocation_lines opt_weights 0 TICKERS = Done lines /\
    length lines = 10%nat.
Proof.
  intros H.
  do 10 (destruct opt_weights as [|? opt_weights]; [discriminate|]).
  destruct opt_weights; [|discriminate].
  eexists. split; reflexivity.
Qed.

Lemma allocation_lines_short (opt_weights : list R) :
  (length opt_weights < 10)%nat ->
  allocation_lines opt_weights 0 TICKERS = Failed (EngineError IndexError).
Proof.
  intros H.
  do 10 (destruct opt_weights as [|? opt_weights]; [reflexivity|]).
  simpl in H. lia.
Qed.

Lemma finite_values_Fin (g : nat -> R) (l : list nat) :
  finite_values (map (fun i => Fin (g i)) l) = Some (map g l).
Proof.
  induction l as [|i l IH]; cbn [map finite_values].
  - reflexivity.
  - rewrite IH. reflexivity.
Qed.

(** Percentiles of a non-empty positive sample are positive and ordered. *)
Lemma percentiles_ordered (xs : list R) (q1 q2 : R) :
  xs <> [] -> 0 <= q1 -> q1 <= q2 -> q2 <= 100 ->
  (forall v, In v xs -> 0 < v) ->
  exists p1 p2,
    np_percentile xs q1 = Ok p1 /\ np_percentile xs q2 = Ok p2 /\
    0 < p1 /\ p1 <= p2.
Proof.
  intros Hne H0 H12 H2 Hpos.
  assert (Hn : (1 <= length (np_sort xs))%nat).
  { rewrite np_sort_length. destruct xs; [congruence|simpl; lia]. }
  assert (HnR : 1 <= INR (length xs)).
  { change 1 with (INR 1). apply le_INR. rewrite <- np_sort_length. exact Hn. }
  do 2 eexists.
  split; [apply np_percentile_order_statistic; [exact Hne|lra]|].
  split; [apply np_percentile_order_statistic; [exact Hne|lra]|].
  split.
  - destruct (np_percentile_lower_bound xs q1 Hne ltac:(lra)) as [t [Ht Hmin]].
    rewrite np_percentile_order_statistic in Ht by (exact Hne || lra).
    inversion Ht as [Et]. rewrite Et.
    destruct (np_sort_min xs Hne) as [Hin _].
    specialize (Hpos _ Hin). lra.
  - apply order_statistic_monotone.
    + apply np_sort_sorted.
    + exact Hn.
    + assert (0 <= q1 / 100) by lra. nra.
    + assert (q1 / 100 <= q2 / 100) by lra. nra.
    + rewrite np_sort_length. assert (q2 / 100 <= 1) by lra. nra.
Qed.

Lemma print_report_complete (ppf : R -> float64)
    (returns_df prices_df : DataFrame) (opt_weights : list R)
    (st : RandomState) :
  ncols returns_df = 10%nat ->
  length opt_weights = 10%nat ->
  (2 <= nrows returns_df)%nat ->
  exists rep,
    print_report (Some ppf) returns_df prices_df opt_weights st =
      (Done rep,
       advance st (nrows returns_df + nrows returns_df + Z.to_nat 10000)) /\
    length (table rep) = 10%nat /\
    opt_weights_out rep = opt_weights /\
    fst (calculate_beta CURRENT_WEIGHTS returns_df st)
      = Ok (m_beta (current rep)) /\
    fst (calculate_beta opt_weights returns_df
                        (advance st (nrows returns_df)))
      = Ok (m_beta (optimal rep)) /\
    exists p5 p50 p95,
      mc rep = (Fin p5, Fin p50, Fin p95) /\
      0 < p5 /\ p5 <= p50 /\ p50 <= p95.
Proof.
  intros Hw Hopt HT.
  assert (Hc : ncols returns_df = length CURRENT_WEIGHTS)
    by (rewrite Hw; reflexivity).
  assert (Ho : ncols returns_df = length opt_weights)
    by (rewrite Hw, Hopt; reflexivity).
  assert (HT1 : (1 <= nrows returns_df)%nat) by lia.
  assert (H99 : 0 <= 99 / 100 <= 1) by lra.
  destruct (calculate_var_Ok ppf CURRENT_WEIGHTS returns_df (99 / 100)
              Hc HT1 H99) as [vh1 [vp1 [cv1 Ev1]]].
  destruct (calculate_var_Ok ppf opt_weights returns_df (99 / 100)
              Ho HT1 H99) as [vh2 [vp2 [cv2 Ev2]]].
  destruct (calculate_beta_Ok CURRENT_WEIGHTS returns_df st Hc) as [b1 Eb1].
  destruct (calculate_beta_Ok opt_weights returns_df
              (advance st (nrows returns_df)) Ho)
    as [b2 Eb2].
  destruct (allocation_lines_Done opt_weights Hopt) as [lines [El Hl]].
  pose proof (monte_carlo_closed_form opt_weights returns_df 10000 252
                (advance (advance st (nrows returns_df)) (nrows returns_df))
                Ho HT ltac:(lia) ltac:(lra))
    as Emc.
  set (g := fun i : nat =>
              AUM * exp (spec_log_return
                           (spec_mean (spec_period_returns opt_weights
                                                           returns_df))
                           (spec_std (spec_period_returns opt_weights
                                                          returns_df))
                           252
                           (variate_from
                              (advance (advance st (nrows returns_df))
                                       (nrows returns_df)) i)))
    in Emc.
  set (n := Z.to_nat 10000) in *.
  change (monte_carlo opt_weights returns_df 10000 252
            (advance (advance st (nrows returns_df)) (nrows returns_df))
          = (Ok (map (fun i => Fin (g i)) (seq 0 n)),
             advance (advance (advance st (nrows returns_df))
                              (nrows returns_df)) n)) in Emc.
  assert (Hn : (1 <= n)%nat) by (unfold n; lia).
  set (xs := map g (seq 0 n)).
  assert (Hxs : xs <> []).
  { intros E. apply (f_equal (@length R)) in E. unfold xs in E.
    rewrite length_map, length_seq in E. simpl in E. lia. }
  assert (Hpos : forall v, In v xs -> 0 < v).
  { intros v Hv. apply in_map_iff in Hv. destruct Hv as [i [<- _]].
    apply Rmult_lt_0_compat; [apply AUM_pos|apply exp_pos]. }
  destruct (percentiles_ordered xs 5 50 Hxs ltac:(lra) ltac:(lra)
              ltac:(lra) Hpos) as [p5 [p50 [E5 [E50 [Hp5 H550]]]]].
  destruct (percentiles_ordered xs 50 95 Hxs ltac:(lra) ltac:(lra)
              ltac:(lra) Hpos) as [p50' [p95 [E50' [E95 [_ H5095]]]]].
  assert (p50' = p50) by congruence. subst p50'.
  assert (Esim : forall q p, np_percentile xs q = Ok p ->
            simulation_percentile (map (fun i => Fin (g i)) (seq 0 n)) q
            = Ok (Fin p)).
  { intros q p Hq. unfold simulation_percentile.
    rewrite finite_values_Fin. fold xs. rewrite Hq. reflexivity. }
  eexists. split.
  - unfold print_report, and_then, pure_step, random_step, lookup_step.
    rewrite (portfolio_metrics_closed_form CURRENT_WEIGHTS) by assumption.
    rewrite Ev1, Eb1. cbv beta iota.
    rewrite (portfolio_metrics_closed_form opt_weights) by assumption.
    rewrite Ev2, Eb2. cbv beta iota. rewrite El, Emc. cbv beta iota.
    rewrite (Esim 5 p5 E5), (Esim 50 p50 E50), (Esim 95 p95 E95).
    cbv beta iota. rewrite !advance_advance, Nat.add_assoc. reflexivity.
  - cbn [table opt_weights_out current optimal m_beta mc].
    split; [exact Hl|]. split; [reflexivity|].
    split; [rewrite Eb1; reflexivity|].
    split; [rewrite Eb2; reflexivity|].
    exists p5, p50, p95. repeat split; assumption.
Qed.



(** X25: with optimal weights of a length other than ten, [print_report] fails
    with [ValueError] only after the block of the current portfolio, its beta
    included, has been computed: the generator has advanced by one variate per
    period. *)
Theorem print_report_wrong_weights (ppf : R -> float64)
    (returns_df prices_df : DataFrame) (opt_weights : list R)
    (st : RandomState) :
  ncols returns_df = 10%nat ->
  (1 <= nrows returns_df)%nat ->
  length opt_weights <> 10%nat ->
  print_report (Some ppf) returns_df prices_df opt_weights st =
    (Failed (EngineError ValueError), advance st (nrows returns_df)).
Proof.
  intros Hw HT Hopt.
  assert (Hc : ncols returns_df = length CURRENT_WEIGHTS)
    by (rewrite Hw; reflexivity).
  destruct (calculate_var_Ok ppf CURRENT_WEIGHTS returns_df (99 / 100)
              Hc HT ltac:(lra)) as [vh1 [vp1 [cv1 Ev1]]].
  destruct (calculate_beta_Ok CURRENT_WEIGHTS returns_df st Hc) as [b1 Eb1].
  unfold print_report, and_then, pure_step, random_step.
  assert (Em : exists m, portfolio_metrics CURRENT_WEIGHTS returns_df = Ok m).
  { unfold portfolio_metrics. rewrite df_matmul_spec by exact Hc.
    eexists. reflexivity. }
  destruct Em as [m Em]. rewrite Em, Ev1, Eb1. cbv beta iota.
  unfold portfolio_metrics.
  rewrite (df_matmul_mismatch returns_df opt_weights) by congruence.
  reflexivity.
Qed.

Lemma print_report_wrong_weights_witness :
  print_report (Some ppf_tails) one_mover_df one_mover_df [1] (mkRS tape 0)
    = (Failed (EngineError ValueError),
       advance (mkRS tape 0) (nrows one_mover_df)).
Proof.
  apply (print_report_wrong_weights ppf_tails one_mover_df one_mover_df [1]
           (mkRS tape 0)).
  - reflexivity.
  - unfold nrows. simpl. lia.
  - simpl. lia.
Defined.

(* ================================================================= *)
(** ** Linearity of beta *)

Lemma map2_Fin (f : R -> R -> R) (g : float64 -> float64 -> float64)
    (u v : list R) :
  (forall a b, g (Fin a) (Fin b) = Fin (f a b)) ->
  map2 g (map Fin u) (map Fin v) = map Fin (map2 f u v).
Proof.
  intros H. revert v. induction u as [|a u IH]; intros v.
  - reflexivity.
  - destruct v as [|b v]; [reflexivity|].
    cbn [map map2]. rewrite H, IH. reflexivity.
Qed.

Lemma benchmark_Fin (df : DataFrame) (st : RandomState) :
  rectangular df -> (1 <= ncols df)%nat ->
  map2 fadd
       (map (fun row => fmul (mean row) (Fin (85 / 100))) (rows df))
       (beta_noise df st)
  = map Fin (benchmark df st).
Proof.
  intros Hrect Hc. unfold benchmark, beta_noise.
  rewrite <- (map2_Fin Rplus fadd) by reflexivity.
  f_equal.
  - rewrite map_map. apply map_ext_in. intros row Hrow.
    unfold rectangular in Hrect. rewrite Forall_forall in Hrect.
    rewrite mean_Fin; [reflexivity|].
    intros E. specialize (Hrect row Hrow). rewrite E in Hrect.
    simpl in Hrect. lia.
  - rewrite map_map. reflexivity.
Qed.

Lemma benchmark_length (df : DataFrame) (st : RandomState) :
  length (benchmark df st) = nrows df.
Proof.
  unfold benchmark. rewrite map2_length, !length_map, length_seq.
  unfold nrows. lia.
Qed.

(** Beta as the ratio of a sample covariance to a sample variance. *)
Lemma calculate_beta_ratio (w : list R) (df : DataFrame) (st : RandomState) :
  rectangular df -> (1 <= ncols df)%nat ->
  ncols df = length w -> (2 <= nrows df)%nat ->
  calculate_beta w df st =
    (Ok (fdiv (Fin (sample_cov (spec_period_returns w df) (benchmark df st)))
              (Fin (sample_cov (benchmark df st) (benchmark df st)))),
     advance st (nrows df)).
Proof.
  intros Hrect Hc Hshape HT.
  rewrite calculate_beta_closed_form. cbv zeta.
  rewrite df_matmul_spec by exact Hshape. cbn [bind].
  rewrite benchmark_Fin by assumption.
  change [map Fin (spec_period_returns w df); map Fin (benchmark df st)]
    with (map (map Fin) [spec_period_returns w df; benchmark df st]).
  rewrite (np_cov_Fin (nrows df)); [reflexivity|exact HT|].
  repeat constructor;
    [apply spec_period_returns_length|apply benchmark_length].
Qed.

Lemma nth_map2_plus (u v : list R) (j : nat) :
  length u = length v ->
  nth j (map2 Rplus u v) 0 = nth j u 0 + nth j v 0.
Proof.
  revert v j. induction u as [|x u IH]; intros v j Hl.
  - destruct v; [|discriminate]. destruct j; simpl; ring.
  - destruct v as [|y v]; [discriminate|].
    destruct j as [|j]; cbn [map2 nth]; [reflexivity|].
    apply IH. simpl in Hl. lia.
Qed.

Lemma combine_weights_length (a c : R) (w1 w2 : list R) :
  length w1 = length w2 ->
  length (combine_weights a w1 c w2) = length w1.
Proof.
  intros H. unfold combine_weights.
  rewrite map2_length, !scale_length. lia.
Qed.

Lemma period_returns_combine (a c : R) (w1 w2 : list R) (df : DataFrame)
    (t : nat) :
  length w1 = length w2 ->
  nth t (spec_period_returns (combine_weights a w1 c w2) df) 0 =
    a * nth t (spec_period_returns w1 df) 0
    + c * nth t (spec_period_returns w2 df) 0.
Proof.
  intros Hl. rewrite !nth_spec_period_returns.
  rewrite combine_weights_length by exact Hl. rewrite <- Hl.
  rewrite <- !big_sum_scale, <- big_sum_plus.
  apply big_sum_ext. intros j _. unfold combine_weights.
  rewrite nth_map2_plus by (rewrite !scale_length; exact Hl).
  rewrite !nth_scale. ring.
Qed.

Lemma sample_cov_indexed (p q : list R) (T : nat) :
  length p = T -> length q = T ->
  sample_cov p q =
    big_sum (fun t => (nth t q 0 - spec_mean q) * (nth t p 0 - spec_mean p)) T
    * (1 / INR (T - 1)).
Proof.
  intros Hp Hq. unfold sample_cov. rewrite Hp. f_equal.
  rewrite dot_spec. unfold spec_period_return.
  unfold centered at 3. rewrite length_map, Hq.
  apply big_sum_ext. intros t Ht.
  assert (Hc : forall l, length l = T ->
            nth t (centered l) 0 = nth t l 0 - spec_mean l).
  { intros l Hl. unfold centered.
    rewrite (nth_indep _ 0 ((fun e => e + - (sum l / INR (length l))) 0))
      by (rewrite length_map, Hl; exact Ht).
    rewrite (map_nth (fun e => e + - (sum l / INR (length l)))).
    rewrite spec_mean_sum. ring. }
  rewrite !Hc by assumption. reflexivity.
Qed.

Lemma sample_cov_combine (a c : R) (w1 w2 : list R) (df : DataFrame)
    (bm : list R) :
  length w1 = length w2 -> length bm = nrows df ->
  sample_cov (spec_period_returns (combine_weights a w1 c w2) df) bm =
    a * sample_cov (spec_period_returns w1 df) bm
    + c * sample_cov (spec_period_returns w2 df) bm.
Proof.
  intros Hl Hbm.
  rewrite !(sample_cov_indexed _ bm (nrows df))
    by (apply spec_period_returns_length || exact Hbm).
  assert (Hm : spec_mean (spec_period_returns (combine_weights a w1 c w2) df)
               = a * spec_mean (spec_period_returns w1 df)
                 + c * spec_mean (spec_period_returns w2 df)).
  { rewrite !(spec_mean_indexed _ (nrows df))
      by apply spec_period_returns_length.
    rewrite (big_sum_ext _ (fun t =>
               a * nth t (spec_period_returns w1 df) 0
               + c * nth t (spec_period_returns w2 df) 0))
      by (intros t _; apply period_returns_combine; exact Hl).
    rewrite big_sum_plus, !big_sum_scale. unfold Rdiv. ring. }
  rewrite Hm.
  rewrite (big_sum_ext _ (fun t =>
             a * ((nth t bm 0 - spec_mean bm)
                  * (nth t (spec_period_returns w1 df) 0
                     - spec_mean (spec_period_returns w1 df)))
             + c * ((nth t bm 0 - spec_mean bm)
                    * (nth t (spec_period_returns w2 df) 0
                       - spec_mean (spec_period_returns w2 df)))))
    by (intros t _; rewrite period_returns_combine by exact Hl; ring).
  rewrite big_sum_plus, !big_sum_scale. ring.
Qed.

Lemma fdiv_Fin_inv (x y b : R) :
  fdiv (Fin x) (Fin y) = Fin b -> y <> 0 /\ b = x / y.
Proof.
  unfold fdiv. destruct (Req_dec_T y 0) as [E|NE].
  - unfold inf_of_sign.
    destruct (total_order_T x 0) as [[?|?]|?]; discriminate.
  - intros H. inversion H. split; [exact NE|reflexivity].
Qed.

(** X11: at a given generator state beta is linear in the weights: the beta of
    [a * w1 + c * w2] is [a * beta w1 + c * beta w2] whenever the two betas
    are finite. *)
Theorem calculate_beta_linear (a c : R) (w1 w2 : list R) (df : DataFrame)
    (st : RandomState) (b1 b2 : R) :
  rectangular df -> (1 <= ncols df)%nat -> (2 <= nrows df)%nat ->
  ncols df = length w1 -> ncols df = length w2 ->
  fst (calculate_beta w1 df st) = Ok (Fin b1) ->
  fst (calculate_beta w2 df st) = Ok (Fin b2) ->
  fst (calculate_beta (combine_weights a w1 c w2) df st)
    = Ok (Fin (a * b1 + c * b2)).
Proof.
  intros Hrect Hc HT H1 H2 E1 E2.
  assert (Hl : length w1 = length w2) by congruence.
  rewrite calculate_beta_ratio in E1, E2 |- * by
    (assumption || (rewrite combine_weights_length by exact Hl; exact H1)).
  cbn [fst] in *.
  inversion E1 as [F1]. inversion E2 as [F2].
  apply fdiv_Fin_inv in F1, F2. destruct F1 as [Hv ->], F2 as [_ ->].
  rewrite sample_cov_combine by (exact Hl || apply benchmark_length).
  rewrite fdiv_Fin by exact Hv. do 2 f_equal. field. exact Hv.
Qed.

Lemma calculate_beta_linear_witness :
  fst (calculate_beta (combine_weights (1 / 2) [1] (1 / 2) [1]) loss_df
                      (mkRS tape 0))
    = Ok (Fin (1 / 2 * 1 + 1 / 2 * 1)).
Proof.
  assert (Hrect : rectangular loss_df) by (repeat constructor).
  assert (Hc : (1 <= ncols loss_df)%nat) by (simpl; lia).
  assert (HT : (2 <= nrows loss_df)%nat) by (unfold nrows; simpl; lia).
  assert (E : fst (calculate_beta [1] loss_df (mkRS tape 0)) = Ok (Fin 1))
    by (rewrite calculate_beta_first_call; reflexivity).
  exact (calculate_beta_linear (1 / 2) (1 / 2) [1] [1] loss_df (mkRS tape 0)
           1 1 Hrect Hc HT eq_refl eq_refl E E).
Defined.

(* ================================================================= *)
(** ** From the generated history to the report *)

(** X21: the generated prices compound the generated returns: on day 0 each
    price is [100 * (1 + return)], and on every later day it is the previous
    day's price times [1 + return]. *)
Theorem generated_prices_compound
    (np_linalg_cholesky : list (list R) -> result (list (list R)))
    (L : list (list R)) (n_days : Z) (st : RandomState) :
  np_linalg_cholesky corr = Ok L ->
  length L = 10%nat ->
  Forall (fun row => length row = 10%nat) L ->
  (0 <= n_days)%Z ->
  exists returns_df prices_df st',
    generate_price_data np_linalg_cholesky n_days st =
      (Ok (returns_df, prices_df), st') /\
    forall j, (j < 10)%nat ->
      ((0 < n_days)%Z ->
       cell prices_df 0 j = 100 * (1 + cell returns_df 0 j)) /\
      (forall t, (Z.of_nat (S t) < n_days)%Z ->
       cell prices_df (S t) j =
         cell prices_df t j * (1 + cell returns_df (S t) j)).
Proof.
  intros Hchol HL Hrows Hn.
  pose proof (generate_price_data_closed_form _ L n_days st Hchol HL Hrows Hn)
    as H. cbv zeta in H.
  set (zs := map (variate_from st) (seq 0 (Z.to_nat n_days * 10))) in *.
  assert (Hzs : length zs = (Z.to_nat n_days * 10)%nat)
    by (unfold zs; rewrite length_map, length_seq; reflexivity).
  destruct (returns_of_shape L _ zs HL Hzs) as [R1 R2].
  do 3 eexists. split; [exact H|].
  intros j Hj. split.
  - intros Hpos.
    apply (proj1 (prices_compound_returns _ 0 j R2 Hj)).
    rewrite R1. lia.
  - intros t Ht.
    apply (proj2 (prices_compound_returns _ t j R2 Hj)).
    rewrite R1. lia.
Qed.

Lemma generated_prices_compound_witness :
  exists returns_df prices_df st',
    generate_price_data cholesky_identity 3 (mkRS tape 0)
      = (Ok (returns_df, prices_df), st') /\
    cell prices_df 1 0 = cell prices_df 0 0 * (1 + cell returns_df 1 0).
Proof.
  destruct cholesky_identity_square as [L [H1 [H2 H3]]].
  assert (Hn : (0 <= 3)%Z) by lia.
  destruct (generated_prices_compound cholesky_identity L 3 (mkRS tape 0)
              H1 H2 H3 Hn) as [r [p [st' [H Hc]]]].
  exists r, p, st'. split; [exact H|].
  apply (Hc 0%nat); lia.
Defined.

(** X26: the pipeline of the main program composes: a history generated for
    [n_days >= 2] is always accepted by [print_report] with ten optimal
    weights, and the two steps together draw [12 * n_days + 10000] variates. *)
Theorem generated_history_reports
    (np_linalg_cholesky : list (list R) -> result (list (list R)))
    (ppf : R -> float64) (L : list (list R)) (n_days : Z)
    (opt_weights : list R) (st : RandomState) :
  np_linalg_cholesky corr = Ok L ->
  length L = 10%nat ->
  Forall (fun row => length row = 10%nat) L ->
  (2 <= n_days)%Z ->
  length opt_weights = 10%nat ->
  exists returns_df prices_df st1 rep,
    generate_price_data np_linalg_cholesky n_days st =
      (Ok (returns_df, prices_df), st1) /\
    print_report (Some ppf) returns_df prices_df opt_weights st1 =
      (Done rep,
       advance st (Z.to_nat n_days * 10 + Z.to_nat n_days + Z.to_nat n_days
                   + Z.to_nat 10000)).
Proof.
  intros Hchol HL Hrows Hn Hopt.
  pose proof (generate_price_data_closed_form _ L n_days st Hchol HL Hrows
                ltac:(lia)) as H. cbv zeta in H.
  set (zs := map (variate_from st) (seq 0 (Z.to_nat n_days * 10))) in *.
  assert (Hzs : length zs = (Z.to_nat n_days * 10)%nat)
    by (unfold zs; rewrite length_map, length_seq; reflexivity).
  destruct (returns_of_shape L _ zs HL Hzs) as [R1 R2].
  set (rdf := mkDF 10 (returns_of L (Z.to_nat n_days) zs)) in *.
  assert (HT : (2 <= nrows rdf)%nat)
    by (unfold nrows, rdf; cbn [rows]; rewrite R1; lia).
  destruct (print_report_complete ppf rdf
              (mkDF 10 (prices_of (returns_of L (Z.to_nat n_days) zs)))
              opt_weights (advance st (Z.to_nat n_days * 10))
              eq_refl Hopt HT) as [rep [Hrep _]].
  exists rdf, (mkDF 10 (prices_of (returns_of L (Z.to_nat n_days) zs))),
    (advance st (Z.to_nat n_days * 10)), rep.
  split; [exact H|].
  rewrite Hrep, advance_advance. do 2 f_equal.
  unfold nrows, rdf. cbn [rows]. rewrite R1. lia.
Qed.

Lemma generated_history_reports_witness :
  exists returns_df prices_df st1 rep st2,
    generate_price_data cholesky_identity 2 (mkRS tape 0)
      = (Ok (returns_df, prices_df), st1) /\
    print_report (Some ppf_tails) returns_df prices_df CURRENT_WEIGHTS st1
      = (Done rep, st2).
Proof.
  destruct cholesky_identity_square as [L [H1 [H2 H3]]].
  assert (Hn : (2 <= 2)%Z) by lia.
  destruct (generated_history_reports cholesky_identity ppf_tails L 2
              CURRENT_WEIGHTS (mkRS tape 0) H1 H2 H3 Hn eq_refl)
    as [r [p [st1 [rep [Hg Hp]]]]].
  exists r, p, st1, rep. eexists. split; [exact Hg|exact Hp].
Defined.
